(** * reparo/syncer/translate.go: binlog records to loader transactions

    A shallow embedding of [pbBinlogToTxn], [genColsAndArgs] and
    [parserSchemaTableFromDDL], and the properties of the translation layer
    proved about it.

    The protobuf decoder of a column, the value codec, [formatValue] and the
    SQL parser are collaborators of the file: they are the fields of the
    class [Externals], and every result below holds for all of them. *)

From Stdlib Require Import Strings.Byte.
From stdpp Require Import gmap strings list fin_maps.

#[local] Set Warnings "-clear-no-such-hyp".

(** ** Errors and results *)

(** A Go [error] as this file builds and reads it.  [errors.Errorf] makes
    an error with a message and the stack of the call.  An error of a
    library has a message and either a stack of its own (it is then as an
    [Errorf]) or none ([Plain]).  [WithStack] is what [errors.Trace] puts
    around an error that has no stack. *)
Inductive error : Type :=
  | Errorf (msg : string)
  | Plain (msg : string)
  | WithStack (cause : error).

(** The [Error()] method: a stack leaves the message of the cause as it
    is. *)
Fixpoint Error (e : error) : string :=
  match e with
  | Errorf msg | Plain msg => msg
  | WithStack cause => Error cause
  end.

(** [errors.HasStack]. *)
Definition HasStack (e : error) : bool :=
  match e with
  | Plain _ => false
  | Errorf _ | WithStack _ => true
  end.

(** [errors.Trace] of an error that is not nil: it is [errors.AddStack],
    which returns an error that has a stack as it is and puts a stack
    around one that has none. *)
Definition Trace (e : error) : error :=
  if HasStack e then e else WithStack e.
Arguments Trace : simpl never.

(** What a call of one of the three functions ends in: the values it
    returns with a nil error, a non-nil error (every such [return] of the
    file gives nil or zero values beside it), or a run-time panic (an index
    out of range). *)
Inductive result (A : Type) : Type :=
  | Ok (a : A)
  | Err (e : error)
  | Panic.
Arguments Ok {A} a.
Arguments Err {A} e.
Arguments Panic {A}.

#[global] Instance result_ret : MRet result := fun A a => Ok a.
#[global] Instance result_bind : MBind result := fun A B f r =>
  match r with
  | Ok a => f a
  | Err e => Err e
  | Panic => Panic
  end.

(** [if err != nil { return ..., errors.Trace(err) }] after a call of a
    library function, which returns an error or a value. *)
Definition traced {A : Type} (r : error + A) : result A :=
  match r with
  | inl err => Err (Trace err)
  | inr a => Ok a
  end.

(** The same after a call of a function of this file. *)
Definition retrace {A : Type} (r : result A) : result A :=
  match r with
  | Err err => Err (Trace err)
  | _ => r
  end.

(** [s[0]] of a slice: out of range on an empty one. *)
Definition index0 {A : Type} (s : list A) : result A :=
  match s with
  | [] => Panic
  | x :: _ => Ok x
  end.

(** [strings.Contains s sub], used to read error messages. *)
Fixpoint contains (s sub : string) : bool :=
  String.prefix sub s ||
  match s with
  | EmptyString => false
  | String _ s' => contains s' sub
  end.

(** ** The wire types (package pb) *)

(** [pb.BinlogType] and [pb.EventType] are protobuf enums: a tag received
    on the wire that is none of the declared values is kept as a number. *)
Inductive BinlogType : Type :=
  | BinlogType_DML
  | BinlogType_DDL
  | BinlogType_other (tag : Z).

Inductive EventType : Type :=
  | EventType_Insert
  | EventType_Update
  | EventType_Delete
  | EventType_other (tag : Z).

(** [pb.Column], what [col.Unmarshal(c)] fills. *)
Record Column : Type := {
  Column_Name : string;
  Column_Tp : list byte;
  Column_MysqlType : string;
  Column_Value : list byte;
  Column_ChangedValue : list byte
}.

(** [pb.Event], by what its getters return ([GetSchemaName], [GetTableName]
    and [GetTp] give the zero value of an absent field). *)
Record Event : Type := {
  Event_SchemaName : string;
  Event_TableName : string;
  Event_Tp : EventType;
  Event_Row : list (list byte)
}.

Record DMLData : Type := {
  DMLData_Events : list Event
}.

(** [GetEvents] of a pointer to [pb.DMLData], nil when the pointer is. *)
Definition GetEvents (data : option DMLData) : list Event :=
  match data with
  | Some d => DMLData_Events d
  | None => []
  end.

Record Binlog : Type := {
  Binlog_Tp : BinlogType;
  Binlog_DmlData : option DMLData;
  Binlog_DdlQuery : list byte
}.

(** ** The statements of the parser (package ast) *)

(** [model.CIStr]: the original string and its lower-case form. *)
Record CIStr : Type := {
  CIStr_O : string;
  CIStr_L : string
}.

Record TableName : Type := {
  TableName_Schema : CIStr;
  TableName_Name : CIStr
}.

(** The statement nodes [parserSchemaTableFromDDL] tells apart, with the
    fields it reads; every other node is [OtherStmt]. *)
Inductive StmtNode : Type :=
  | UseStmt (DBName : string)
  | CreateDatabaseStmt (Name : string)
  | DropDatabaseStmt (Name : string)
  | TruncateTableStmt (Table : TableName)
  | CreateIndexStmt (Table : TableName)
  | CreateTableStmt (Table : TableName)
  | DropIndexStmt (Table : TableName)
  | AlterTableStmt (Table : TableName)
  | DropTableStmt (Tables : list TableName)
  | RenameTableStmt (OldTable NewTable : TableName)
  | OtherStmt.

(** ** The collaborators *)

Class Externals : Type := {
  (** [types.Datum], what the codec decodes to *)
  Datum : Type;
  (** [interface{}], what a datum holds and a value map stores *)
  Any : Type;
  (** [Unmarshal] of a fresh [pb.Column] *)
  Unmarshal : list byte -> error + Column;
  (** [codec.DecodeOne]: the bytes left and the datum *)
  DecodeOne : list byte -> error + (list byte * Datum);
  (** [formatValue] of this package, directed by the type tag *)
  formatValue : Datum -> byte -> Datum;
  (** [GetValue] of a datum *)
  GetValue : Datum -> Any;
  (** [parser.New().Parse(sql, "", "")], without the warnings *)
  Parse : string -> error + list StmtNode;
  (** how [%v] prints the two enums *)
  EventType_String : EventType -> string;
  BinlogType_String : BinlogType -> string
}.

(** ** The transactions of the loader (package loader) *)

Inductive DMLType : Type :=
  | UnknownDMLType
  | InsertDMLType
  | UpdateDMLType
  | DeleteDMLType.

Record DDL : Type := {
  DDL_Database : string;
  DDL_Table : string;
  DDL_SQL : string
}.

Section Translate.
Context {ext : Externals}.

(** [loader.DML]; a Go map is nil ([None]) until it is made. *)
Record DML : Type := {
  DML_Database : string;
  DML_Table : string;
  DML_Tp : DMLType;
  DML_Values : option (gmap string Any);
  DML_OldValues : option (gmap string Any)
}.

Record Txn : Type := {
  Txn_DMLs : list DML;
  Txn_DDL : option DDL
}.

(** *** genColsAndArgs *)

(** The loop of [genColsAndArgs], from the slices built so far. *)
Fixpoint genColsAndArgs_from (row : list (list byte))
    (cols : list string) (args : list Any)
    : result (list string * list Any) :=
  match row with
  | [] => Ok (cols, args)
  | c :: row' =>
      col ← traced (Unmarshal c);
      let cols := cols ++ [Column_Name col] in
      '(_, val) ← traced (DecodeOne (Column_Value col));
      tp ← index0 (Column_Tp col);
      let val := formatValue val tp in
      let args := args ++ [GetValue val] in
      genColsAndArgs_from row' cols args
  end.

Definition genColsAndArgs (row : list (list byte))
    : result (list string * list Any) :=
  genColsAndArgs_from row [] [].

(** *** pbBinlogToTxn *)

(** [for i := 0; i < len(cols); i++ { values[cols[i]] = args[i] }]:
    [args[i]] is out of range when [args] is the shorter slice. *)
Fixpoint setValues (cols : list string) (args : list Any)
    (values : gmap string Any) : result (gmap string Any) :=
  match cols with
  | [] => Ok values
  | name :: cols' =>
      match args with
      | [] => Panic
      | arg :: args' => setValues cols' args' (<[name := arg]> values)
      end
  end.

(** The loop over the row of an update event, from the two maps filled so
    far: (Values, OldValues). *)
Fixpoint updateValues_from (row : list (list byte))
    (values oldValues : gmap string Any)
    : result (gmap string Any * gmap string Any) :=
  match row with
  | [] => Ok (values, oldValues)
  | c :: row' =>
      col ← traced (Unmarshal c);
      '(_, oldDatum) ← traced (DecodeOne (Column_Value col));
      '(_, newDatum) ← traced (DecodeOne (Column_ChangedValue col));
      tp ← index0 (Column_Tp col);
      let newValue := GetValue (formatValue newDatum tp) in
      let oldValue := GetValue (formatValue oldDatum tp) in
      updateValues_from row'
        (<[Column_Name col := newValue]> values)
        (<[Column_Name col := oldValue]> oldValues)
  end.

(** The body of the loop over the events: the DML of one event. *)
Definition eventToDML (event : Event) : result DML :=
  let database := Event_SchemaName event in
  let table := Event_TableName event in
  match Event_Tp event with
  | EventType_Insert =>
      '(cols, args) ← retrace (genColsAndArgs (Event_Row event));
      values ← setValues cols args ∅;
      Ok {| DML_Database := database; DML_Table := table;
            DML_Tp := InsertDMLType;
            DML_Values := Some values; DML_OldValues := None |}
  | EventType_Update =>
      '(values, oldValues) ← updateValues_from (Event_Row event) ∅ ∅;
      Ok {| DML_Database := database; DML_Table := table;
            DML_Tp := UpdateDMLType;
            DML_Values := Some values; DML_OldValues := Some oldValues |}
  | EventType_Delete =>
      '(cols, args) ← retrace (genColsAndArgs (Event_Row event));
      values ← setValues cols args ∅;
      Ok {| DML_Database := database; DML_Table := table;
            DML_Tp := DeleteDMLType;
            DML_Values := Some values; DML_OldValues := None |}
  | EventType_other _ =>
      Err (Errorf ("unknown type: " +:+ EventType_String (Event_Tp event)))
  end.

(** The loop over the events, from the DMLs appended so far.  The source
    appends the pointer to the DML before it fills it: the slice of a
    translated record holds the filled DMLs. *)
Fixpoint eventsToDMLs_from (events : list Event) (dmls : list DML)
    : result (list DML) :=
  match events with
  | [] => Ok dmls
  | event :: events' =>
      dml ← eventToDML event;
      eventsToDMLs_from events' (dmls ++ [dml])
  end.

(** *** parserSchemaTableFromDDL *)

(** [if len(t.Schema.O) != 0 { schema = t.Schema.O }] *)
Definition schemaOf (t : TableName) (schema : string) : string :=
  if negb (Nat.eqb (String.length (CIStr_O (TableName_Schema t))) 0)
  then CIStr_O (TableName_Schema t) else schema.

(** The loop over the statements, from (haveUseStmt, schema, table). *)
Fixpoint walkStmts (ddlQuery : string) (stmts : list StmtNode)
    (haveUseStmt : bool) (schema table : string)
    : result (bool * string * string) :=
  match stmts with
  | [] => Ok (haveUseStmt, schema, table)
  | stmt :: stmts' =>
      match stmt with
      | UseStmt DBName => walkStmts ddlQuery stmts' true DBName table
      | CreateDatabaseStmt Name =>
          walkStmts ddlQuery stmts' haveUseStmt Name table
      | DropDatabaseStmt Name =>
          walkStmts ddlQuery stmts' haveUseStmt Name table
      | TruncateTableStmt Table
      | CreateIndexStmt Table
      | CreateTableStmt Table
      | DropIndexStmt Table
      | AlterTableStmt Table =>
          walkStmts ddlQuery stmts' haveUseStmt
            (schemaOf Table schema) (CIStr_O (TableName_Name Table))
      | DropTableStmt Tables =>
          Table ← index0 Tables;
          walkStmts ddlQuery stmts' haveUseStmt
            (schemaOf Table schema) (CIStr_O (TableName_Name Table))
      | RenameTableStmt _ NewTable =>
          walkStmts ddlQuery stmts' haveUseStmt
            (schemaOf NewTable schema) (CIStr_O (TableName_Name NewTable))
      | OtherStmt =>
          Err (Errorf ("unknown ddl type, ddl: " +:+ ddlQuery))
      end
  end.

(** The check of the number of statements that follows the loop. *)
Definition checkCount (ddlQuery : string) (stmts : list StmtNode)
    (haveUseStmt : bool) (schema table : string)
    : result (string * string) :=
  if haveUseStmt then
    if negb (Nat.eqb (length stmts) 2)
    then Err (Errorf ("invalid ddl " +:+ ddlQuery))
    else Ok (schema, table)
  else
    if negb (Nat.eqb (length stmts) 1)
    then Err (Errorf ("invalid ddl " +:+ ddlQuery))
    else Ok (schema, table).

(** The statements once parsed: the loop, then the check. *)
Definition resolveStmts (ddlQuery : string) (stmts : list StmtNode)
    : result (string * string) :=
  '(haveUseStmt, schema, table) ← walkStmts ddlQuery stmts false "" "";
  checkCount ddlQuery stmts haveUseStmt schema table.

Definition parserSchemaTableFromDDL (ddlQuery : string)
    : result (string * string) :=
  match Parse ddlQuery with
  | inl err => Err err
  | inr stmts => resolveStmts ddlQuery stmts
  end.

Definition pbBinlogToTxn (binlog : Binlog) : result Txn :=
  match Binlog_Tp binlog with
  | BinlogType_DDL =>
      let sql := String.string_of_list_byte (Binlog_DdlQuery binlog) in
      '(database, table) ← retrace (parserSchemaTableFromDDL sql);
      if Nat.eqb (String.length database) 0
      then Err (Errorf ("can't parse database name from DDL " +:+ sql))
      else Ok {| Txn_DMLs := [];
                 Txn_DDL := Some {| DDL_Database := database;
                                    DDL_Table := table;
                                    DDL_SQL := sql |} |}
  | BinlogType_DML =>
      dmls ← eventsToDMLs_from (GetEvents (Binlog_DmlData binlog)) [];
      Ok {| Txn_DMLs := dmls; Txn_DDL := None |}
  | BinlogType_other _ =>
      Err (Errorf ("unknown type: " +:+ BinlogType_String (Binlog_Tp binlog)))
  end.

End Translate.

(** ** What the statements below read off a record *)

Section Readings.
Context {ext : Externals}.

(** The DML type an event type is translated to. *)
Definition dmlTypeOf (tp : EventType) : DMLType :=
  match tp with
  | EventType_Insert => InsertDMLType
  | EventType_Update => UpdateDMLType
  | EventType_Delete => DeleteDMLType
  | EventType_other _ => UnknownDMLType
  end.

Definition isOther (tp : EventType) : bool :=
  match tp with
  | EventType_other _ => true
  | _ => false
  end.

Definition isUpdate (tp : EventType) : bool :=
  match tp with
  | EventType_Update => true
  | _ => false
  end.

(** The columns of a row that unmarshal, in the order of the row. *)
Definition rowColumns (row : list (list byte)) : list Column :=
  omap (fun c => match Unmarshal c with
                 | inr col => Some col
                 | inl _ => None
                 end) row.

Definition rowNames (row : list (list byte)) : list string :=
  Column_Name <$> rowColumns row.

Definition decodes (payload : list byte) : bool :=
  match DecodeOne payload with
  | inr _ => true
  | inl _ => false
  end.

(** The entry of a row unmarshals and the codec accepts every payload of it
    that the event decodes: the current one, and the changed one as well
    when the event is an update. *)
Definition columnDecodes (update : bool) (c : list byte) : bool :=
  match Unmarshal c with
  | inl _ => false
  | inr col =>
      decodes (Column_Value col) &&
      (if update then decodes (Column_ChangedValue col) else true)
  end.

(** The entry, if it unmarshals, has a type descriptor with a first byte. *)
Definition columnTyped (c : list byte) : bool :=
  match Unmarshal c with
  | inl _ => true
  | inr col =>
      match Column_Tp col with
      | [] => false
      | _ :: _ => true
      end
  end.

(** The loop goes through the entry and on to the next. *)
Definition columnPasses (update : bool) (c : list byte) : bool :=
  columnDecodes update c && columnTyped c.

(** An event fails to translate: its type is none of the three, or one of
    its columns fails to unmarshal or to decode. *)
Definition eventFails (event : Event) : bool :=
  isOther (Event_Tp event) ||
  existsb (fun c => negb (columnDecodes (isUpdate (Event_Tp event)) c))
    (Event_Row event).

Definition eventsTyped (events : list Event) : bool :=
  forallb (fun event => forallb columnTyped (Event_Row event)) events.

(** The error of the codec on a column: that of the first payload it
    rejects, in the order the event decodes them. *)
Definition codecError (update : bool) (col : Column) : option error :=
  match DecodeOne (Column_Value col) with
  | inl e => Some e
  | inr _ =>
      if update then
        match DecodeOne (Column_ChangedValue col) with
        | inl e => Some e
        | inr _ => None
        end
      else None
  end.

(** The error an entry of a row stops the loop with, before any trace. *)
Definition columnError (update : bool) (c : list byte) : option error :=
  match Unmarshal c with
  | inl e => Some e
  | inr col => codecError update col
  end.

(** The value a column is given: its payload decoded, then formatted by the
    first byte of the type descriptor. *)
Definition formatted (payload : list byte) (tps : list byte) : option Any :=
  match DecodeOne payload, tps with
  | inr (_, d), tp :: _ => Some (GetValue (formatValue d tp))
  | _, _ => None
  end.

(** The formatted current values of the columns of a row, and the formatted
    changed values. *)
Definition rowArgs (row : list (list byte)) : list Any :=
  omap (fun col => formatted (Column_Value col) (Column_Tp col))
    (rowColumns row).

Definition rowChanged (row : list (list byte)) : list Any :=
  omap (fun col => formatted (Column_ChangedValue col) (Column_Tp col))
    (rowColumns row).

(** The assignments [m[k] = v] of a list of pairs, in its order. *)
Definition fill (kvs : list (string * Any)) (m : gmap string Any)
    : gmap string Any :=
  foldl (fun m kv => <[kv.1 := kv.2]> m) m kvs.

(** The DML of an event all of whose columns pass. *)
Definition dmlOf (event : Event) : DML :=
  let names := rowNames (Event_Row event) in
  let update := isUpdate (Event_Tp event) in
  {| DML_Database := Event_SchemaName event;
     DML_Table := Event_TableName event;
     DML_Tp := dmlTypeOf (Event_Tp event);
     DML_Values :=
       Some (fill (zip names (if update then rowChanged (Event_Row event)
                              else rowArgs (Event_Row event))) ∅);
     DML_OldValues :=
       if update then Some (fill (zip names (rowArgs (Event_Row event))) ∅)
       else None |}.

(** The event translates to the DML. *)
Definition translates (event : Event) (dml : DML) : Prop :=
  eventToDML event = Ok dml.

Definition isUse (stmt : StmtNode) : bool :=
  match stmt with
  | UseStmt _ => true
  | _ => false
  end.

(** The table a statement is resolved by, for the statements on a table. *)
Definition tableOf (stmt : StmtNode) : option TableName :=
  match stmt with
  | TruncateTableStmt t | CreateIndexStmt t | CreateTableStmt t
  | DropIndexStmt t | AlterTableStmt t => Some t
  | DropTableStmt ts => head ts
  | RenameTableStmt _ t => Some t
  | _ => None
  end.

(** The statement is one the loop goes through. *)
Definition resolvable (stmt : StmtNode) : bool :=
  match stmt with
  | OtherStmt => false
  | DropTableStmt [] => false
  | _ => true
  end.

(** The rule on the number of statements. *)
Definition countRule (stmts : list StmtNode) : bool :=
  if existsb isUse stmts
  then Nat.eqb (length stmts) 2
  else Nat.eqb (length stmts) 1.

End Readings.

(** ** A sample instance

    A stub of the collaborators, enough to run the translation: an entry of
    a row is four bytes (name, type tag, current payload, changed payload),
    a zero tag stands for an empty type descriptor, the codec rejects the
    payload [xff], and the parser knows a handful of texts. *)

Module Sample.

Definition name (b : byte) : string :=
  match b with
  | x01 => "id"
  | x02 => "price"
  | _ => "c"
  end.

Definition unmarshal (c : list byte) : error + Column :=
  match c with
  | [n; t; v; w] =>
      inr {| Column_Name := name n;
             Column_Tp := match t with x00 => [] | _ => [t] end;
             Column_MysqlType := "int";
             Column_Value := [v];
             Column_ChangedValue := [w] |}
  | _ => inl (Errorf "unexpected EOF")
  end.

Definition decodeOne (b : list byte) : error + (list byte * list byte) :=
  match b with
  | [] | xff :: _ => inl (Errorf "invalid encoded key")
  | flag :: rest => inr (rest, [flag])
  end.

Definition tbl (schema table : string) : TableName :=
  {| TableName_Schema := {| CIStr_O := schema; CIStr_L := schema |};
     TableName_Name := {| CIStr_O := table; CIStr_L := table |} |}.

Definition texts : list (string * list StmtNode) :=
  [ ("USE db1; CREATE TABLE t", [UseStmt "db1"; CreateTableStmt (tbl "" "t")]);
    ("CREATE TABLE db2.t", [CreateTableStmt (tbl "db2" "t")]);
    ("USE db1; CREATE TABLE db2.t",
       [UseStmt "db1"; CreateTableStmt (tbl "db2" "t")]);
    ("USE db1", [UseStmt "db1"]);
    ("CREATE TABLE t1; CREATE TABLE t2",
       [CreateTableStmt (tbl "" "t1"); CreateTableStmt (tbl "" "t2")]);
    ("CREATE TABLE t", [CreateTableStmt (tbl "" "t")]);
    ("RENAME TABLE old_db.old_t TO new_db.new_t",
       [RenameTableStmt (tbl "old_db" "old_t") (tbl "new_db" "new_t")]);
    ("SELECT 1", [OtherStmt]) ].

Fixpoint parse_in (l : list (string * list StmtNode)) (sql : string)
    : error + list StmtNode :=
  match l with
  | [] => inl (Errorf "You have an error in your SQL syntax")
  | (text, stmts) :: l' =>
      if String.eqb text sql then inr stmts else parse_in l' sql
  end.

#[local] Instance externals : Externals := {|
  Datum := list byte;
  Any := list byte;
  Unmarshal := unmarshal;
  DecodeOne := decodeOne;
  formatValue := fun d tp => tp :: d;
  GetValue := fun d => d;
  Parse := parse_in texts;
  EventType_String := fun _ => "EventType";
  BinlogType_String := fun _ => "BinlogType"
|}.

Definition event (tp : EventType) (row : list (list byte)) : Event :=
  {| Event_SchemaName := "test"; Event_TableName := "t";
     Event_Tp := tp; Event_Row := row |}.

Definition dml (events : list Event) : Binlog :=
  {| Binlog_Tp := BinlogType_DML;
     Binlog_DmlData := Some {| DMLData_Events := events |};
     Binlog_DdlQuery := [] |}.

Definition ddl (sql : string) : Binlog :=
  {| Binlog_Tp := BinlogType_DDL;
     Binlog_DmlData := None;
     Binlog_DdlQuery := String.list_byte_of_string sql |}.

(** Three events that translate: an insert of (id, price), an update of
    price and a delete of id. *)
Definition e1 : Event :=
  event EventType_Insert [[x01; x03; x05; x00]; [x02; x05; x09; x00]].
Definition e2 : Event := event EventType_Update [[x02; x05; x09; x0a]].
Definition e3 : Event := event EventType_Delete [[x01; x03; x05; x00]].

Definition txn123 : Txn :=
  {| Txn_DMLs := [dmlOf e1; dmlOf e2; dmlOf e3]; Txn_DDL := None |}.

(** An insert with two columns of the same name. *)
Definition twice : Event :=
  event EventType_Insert [[x01; x03; x05; x00]; [x01; x03; x06; x00]].

(** A column named "price", of type "int", whose payload the codec
    rejects. *)
Definition badPrice : list byte := [x02; x03; xff; x00].

Definition priceColumn : Column :=
  {| Column_Name := "price"; Column_Tp := [x03]; Column_MysqlType := "int";
     Column_Value := [xff]; Column_ChangedValue := [x00] |}.

(** A column whose payloads decode and whose type descriptor is empty. *)
Definition untyped : list byte := [x02; x00; x09; x0a].

Definition untypedColumn : Column :=
  {| Column_Name := "price"; Column_Tp := []; Column_MysqlType := "int";
     Column_Value := [x09]; Column_ChangedValue := [x0a] |}.

End Sample.

(** ** More readings and a wider sample parser *)

(** The database a statement on a database names. *)
Definition databaseOf (stmt : StmtNode) : option string :=
  match stmt with
  | CreateDatabaseStmt Name | DropDatabaseStmt Name => Some Name
  | _ => None
  end.

Section MoreReadings.
Context {ext : Externals}.

(** The assignment an entry of a row makes in [Values] on the path of an
    insert or a delete: the name of its column and the formatted value. *)
Definition columnPair (c : list byte) : option (string * Any) :=
  match Unmarshal c with
  | inl _ => None
  | inr col =>
      match formatted (Column_Value col) (Column_Tp col) with
      | Some a => Some (Column_Name col, a)
      | None => None
      end
  end.

(** Two entries unmarshal to columns of the same name, type descriptor and
    current payload. *)
Definition sameCurrent (c1 c2 : list byte) : Prop :=
  ∃ col1 col2,
    Unmarshal c1 = inr col1 ∧ Unmarshal c2 = inr col2 ∧
    Column_Name col1 = Column_Name col2 ∧
    Column_Tp col1 = Column_Tp col2 ∧
    Column_Value col1 = Column_Value col2.

End MoreReadings.

(** The sample instance, with a parser that knows more texts. *)
Module Sample2.

Definition texts : list (string * list StmtNode) :=
  [ ("CREATE DATABASE db2", [CreateDatabaseStmt "db2"]);
    ("USE db1; DROP DATABASE db2", [UseStmt "db1"; DropDatabaseStmt "db2"]);
    ("DROP TABLE db1.a, db2.b",
       [DropTableStmt [Sample.tbl "db1" "a"; Sample.tbl "db2" "b"]]);
    ("CREATE TABLE db2.t; USE db1",
       [CreateTableStmt (Sample.tbl "db2" "t"); UseStmt "db1"]);
    ("SELECT 1; SELECT 2", [OtherStmt; OtherStmt]) ].

#[local] Instance externals : Externals := {|
  Datum := list byte;
  Any := list byte;
  Unmarshal := Sample.unmarshal;
  DecodeOne := Sample.decodeOne;
  formatValue := fun d tp => tp :: d;
  GetValue := fun d => d;
  Parse := Sample.parse_in (texts ++ Sample.texts);
  EventType_String := fun _ => "EventType";
  BinlogType_String := fun _ => "BinlogType"
|}.

End Sample2.

(** The same, with a RENAME TABLE followed by a USE. *)
Module Sample3.

Definition texts : list (string * list StmtNode) :=
  [ ("RENAME TABLE a.b TO c.d; USE db1",
       [RenameTableStmt (Sample.tbl "a" "b") (Sample.tbl "c" "d");
        UseStmt "db1"]) ].

#[local] Instance externals : Externals := {|
  Datum := list byte;
  Any := list byte;
  Unmarshal := Sample.unmarshal;
  DecodeOne := Sample.decodeOne;
  formatValue := fun d tp => tp :: d;
  GetValue := fun d => d;
  Parse := Sample.parse_in (texts ++ Sample2.texts ++ Sample.texts);
  EventType_String := fun _ => "EventType";
  BinlogType_String := fun _ => "BinlogType"
|}.

End Sample3.

(** * Properties *)

Section Properties.
Context {ext : Externals}.

Implicit Types (row : list (list byte)) (c : list byte) (col : Column).
Implicit Types (m : gmap string Any) (event : Event) (events : list Event).

(** ** Errors *)

Lemma Error_Trace e : Error (Trace e) = Error e.
Proof. unfold Trace. by destruct e. Qed.

Lemma HasStack_Trace e : HasStack (Trace e) = true.
Proof. unfold Trace. by destruct e. Qed.

(** A second [errors.Trace] changes nothing. *)
Lemma Trace_Trace e : Trace (Trace e) = Trace e.
Proof. unfold Trace at 1. by rewrite HasStack_Trace. Qed.

Lemma Trace_stacked e : HasStack e = true → Trace e = e.
Proof. unfold Trace. by intros ->. Qed.

(** ** Value maps *)

Lemma fill_snoc kvs k v m : fill (kvs ++ [(k, v)]) m = <[k := v]> (fill kvs m).
Proof. unfold fill. by rewrite foldl_app. Qed.

Lemma dom_fill kvs m : dom (fill kvs m) = dom m ∪ list_to_set kvs.*1.
Proof.
  revert m. induction kvs as [|[k v] kvs IH]; intros m; simpl.
  - set_solver.
  - unfold fill in *. simpl. rewrite IH, dom_insert_L. set_solver.
Qed.

(** The last assignment to a key is the one that stays. *)
Lemma lookup_fill_last kvs j k v m :
  kvs !! j = Some (k, v) → k ∉ (drop (S j) kvs).*1 → fill kvs m !! k = Some v.
Proof.
  revert j m. induction kvs as [|[k' v'] kvs IH]; intros j m Hj Hlater.
  - done.
  - destruct j as [|j]; simpl in *.
    + injection Hj as -> ->. rewrite drop_0 in Hlater.
      clear IH. unfold fill. simpl.
      assert (Hins : (<[k := v]> m) !! k = Some v) by apply lookup_insert_eq.
      revert Hlater Hins. generalize (<[k := v]> m).
      induction kvs as [|[k2 v2] kvs IH]; intros m' Hnot Hm'; simpl; [done|].
      apply IH; [set_solver|].
      rewrite lookup_insert_ne; [done|]. set_solver.
    + unfold fill. simpl. by apply (IH j).
Qed.

Lemma lookup_fill_None kvs k m :
  k ∉ kvs.*1 → fill kvs m !! k = m !! k.
Proof.
  revert m. induction kvs as [|[k' v'] kvs IH]; intros m Hk; [done|].
  unfold fill in *. simpl in *. rewrite IH by set_solver.
  apply lookup_insert_ne. set_solver.
Qed.

Lemma setValues_fill cols args m :
  length cols = length args →
  setValues cols args m = Ok (fill (zip cols args) m).
Proof.
  revert args m. induction cols as [|k cols IH]; intros [|a args] m Hlen;
    simplify_eq/=; [done|].
  by rewrite IH.
Qed.

(** ** Rows *)

Lemma rowColumns_cons c row col :
  Unmarshal c = inr col → rowColumns (c :: row) = col :: rowColumns row.
Proof. intros Hc. unfold rowColumns. simpl. by rewrite Hc. Qed.

Lemma rowColumns_app row1 row2 :
  rowColumns (row1 ++ row2) = rowColumns row1 ++ rowColumns row2.
Proof. unfold rowColumns. apply omap_app. Qed.

Lemma rowNames_cons c row col :
  Unmarshal c = inr col → rowNames (c :: row) = Column_Name col :: rowNames row.
Proof. intros Hc. unfold rowNames. by rewrite (rowColumns_cons _ _ _ Hc). Qed.

Lemma rowArgs_cons c row col a :
  Unmarshal c = inr col →
  formatted (Column_Value col) (Column_Tp col) = Some a →
  rowArgs (c :: row) = a :: rowArgs row.
Proof.
  intros Hc Ha. unfold rowArgs. rewrite (rowColumns_cons _ _ _ Hc).
  cbn [omap list_omap]. by rewrite Ha.
Qed.

Lemma rowChanged_cons c row col a :
  Unmarshal c = inr col →
  formatted (Column_ChangedValue col) (Column_Tp col) = Some a →
  rowChanged (c :: row) = a :: rowChanged row.
Proof.
  intros Hc Ha. unfold rowChanged. rewrite (rowColumns_cons _ _ _ Hc).
  cbn [omap list_omap]. by rewrite Ha.
Qed.

Lemma formatted_Some payload tps rest d tp tps' :
  DecodeOne payload = inr (rest, d) → tps = tp :: tps' →
  formatted payload tps = Some (GetValue (formatValue d tp)).
Proof. intros Hd ->. unfold formatted. by rewrite Hd. Qed.

(** What an entry that passes gives: its column, a first byte of the type
    descriptor and a current payload that decodes. *)
Lemma columnPasses_inv update c :
  columnPasses update c = true →
  ∃ col rest d tp tps,
    Unmarshal c = inr col ∧
    DecodeOne (Column_Value col) = inr (rest, d) ∧
    Column_Tp col = tp :: tps ∧
    (update = true →
     ∃ rest' d', DecodeOne (Column_ChangedValue col) = inr (rest', d')).
Proof.
  unfold columnPasses, columnDecodes, columnTyped, decodes.
  destruct (Unmarshal c) as [e|col]; [done|].
  destruct (DecodeOne (Column_Value col)) as [e|[rest d]] eqn:Hd; [done|].
  destruct (Column_Tp col) as [|tp tps] eqn:Htp; [by rewrite andb_false_r|].
  intros Hp. exists col, rest, d, tp, tps. split_and!; try done.
  intros ->. simpl in Hp.
  destruct (DecodeOne (Column_ChangedValue col)) as [e|[rest' d']]; [done|].
  by exists rest', d'.
Qed.

(** A row all of whose entries pass has as many columns, names and values
    as entries. *)
Lemma passes_lengths update row :
  forallb (columnPasses update) row = true →
  length (rowColumns row) = length row ∧
  length (rowNames row) = length row ∧
  length (rowArgs row) = length row ∧
  (update = true → length (rowChanged row) = length row).
Proof.
  induction row as [|c row IH]; [done|].
  cbn [forallb]. intros [Hc Hrow]%andb_true_iff.
  destruct (columnPasses_inv _ _ Hc)
    as (col & rest & d & tp & tps & Hu & Hd & Htp & Hch).
  destruct (IH Hrow) as (IH1 & IH2 & IH3 & IH4).
  rewrite (rowColumns_cons _ _ _ Hu), (rowNames_cons _ _ _ Hu).
  rewrite (rowArgs_cons _ _ _ _ Hu (formatted_Some _ _ _ _ _ _ Hd Htp)).
  cbn [length]. split_and!; try (f_equal; done).
  intros Hup. destruct (Hch Hup) as (rest' & d' & Hd').
  rewrite (rowChanged_cons _ _ _ _ Hu (formatted_Some _ _ _ _ _ _ Hd' Htp)).
  cbn [length]. f_equal. by apply IH4.
Qed.

(** A row either passes whole, or has a first entry that does not. *)
Lemma row_first_stop update row :
  forallb (columnPasses update) row = true ∨
  ∃ pre c post,
    row = pre ++ c :: post ∧
    forallb (columnPasses update) pre = true ∧
    columnPasses update c = false.
Proof.
  induction row as [|c row IH]; [by left|].
  destruct (columnPasses update c) eqn:Hc.
  - destruct IH as [IH|(pre & c' & post & -> & Hpre & Hc')].
    + left. simpl. by rewrite Hc.
    + right. exists (c :: pre), c', post. simpl. by rewrite Hc.
  - right. by exists [], c, row.
Qed.

(** An entry that does not decode has an error to stop the loop with, and
    only such an entry has. *)
Lemma columnError_decodes update c :
  columnDecodes update c = false ↔ is_Some (columnError update c).
Proof.
  unfold columnDecodes, columnError, codecError, decodes.
  destruct (Unmarshal c) as [e|col]; [by split; eauto|].
  destruct (DecodeOne (Column_Value col)) as [e|[rest d]]; simpl;
    [by split; eauto|].
  destruct update; [|split; [done|by intros [? ?]]].
  destruct (DecodeOne (Column_ChangedValue col)) as [e|[rest' d']];
    split; eauto; try done; by intros [? ?].
Qed.

(** ** The loop of [genColsAndArgs] *)

Lemma genColsAndArgs_from_passes pre row cols args :
  forallb (columnPasses false) pre = true →
  genColsAndArgs_from (pre ++ row) cols args =
  genColsAndArgs_from row (cols ++ rowNames pre) (args ++ rowArgs pre).
Proof.
  revert cols args. induction pre as [|c pre IH]; intros cols args.
  - intros _. cbn. by rewrite !app_nil_r.
  - cbn [forallb]. intros [Hc Hpre]%andb_true_iff.
    destruct (columnPasses_inv _ _ Hc)
      as (col & rest & d & tp & tps & Hu & Hd & Htp & _).
    rewrite (rowNames_cons _ _ _ Hu).
    rewrite (rowArgs_cons _ _ _ _ Hu (formatted_Some _ _ _ _ _ _ Hd Htp)).
    cbn [app genColsAndArgs_from]. rewrite Hu. cbn. rewrite Hd. cbn.
    rewrite Htp. cbn. rewrite IH by done.
    by rewrite <- !app_assoc.
Qed.

Lemma genColsAndArgs_from_error c row cols args e :
  columnError false c = Some e →
  genColsAndArgs_from (c :: row) cols args = Err (Trace e).
Proof.
  unfold columnError, codecError. simpl.
  destruct (Unmarshal c) as [e'|col]; simpl; [congruence|].
  destruct (DecodeOne (Column_Value col)) as [e'|[rest d]]; simpl; congruence.
Qed.

Lemma genColsAndArgs_from_panic c row cols args :
  columnDecodes false c = true → columnTyped c = false →
  genColsAndArgs_from (c :: row) cols args = Panic.
Proof.
  unfold columnDecodes, columnTyped, decodes. simpl.
  destruct (Unmarshal c) as [e'|col]; simpl; [done|].
  destruct (DecodeOne (Column_Value col)) as [e'|[rest d]]; simpl; [done|].
  by destruct (Column_Tp col).
Qed.

(** ** The loop over the row of an update *)

Lemma updateValues_from_passes pre row values oldValues :
  forallb (columnPasses true) pre = true →
  updateValues_from (pre ++ row) values oldValues =
  updateValues_from row
    (fill (zip (rowNames pre) (rowChanged pre)) values)
    (fill (zip (rowNames pre) (rowArgs pre)) oldValues).
Proof.
  revert values oldValues. induction pre as [|c pre IH]; intros values oldValues.
  - done.
  - cbn [forallb]. intros [Hc Hpre]%andb_true_iff.
    destruct (columnPasses_inv _ _ Hc)
      as (col & rest & d & tp & tps & Hu & Hd & Htp & Hch).
    destruct (Hch eq_refl) as (rest' & d' & Hd').
    rewrite (rowNames_cons _ _ _ Hu).
    rewrite (rowArgs_cons _ _ _ _ Hu (formatted_Some _ _ _ _ _ _ Hd Htp)).
    rewrite (rowChanged_cons _ _ _ _ Hu (formatted_Some _ _ _ _ _ _ Hd' Htp)).
    cbn [app updateValues_from]. rewrite Hu. cbn. rewrite Hd. cbn.
    rewrite Hd'. cbn. rewrite Htp. cbn. by rewrite IH.
Qed.

Lemma updateValues_from_error c row values oldValues e :
  columnError true c = Some e →
  updateValues_from (c :: row) values oldValues = Err (Trace e).
Proof.
  unfold columnError, codecError. simpl.
  destruct (Unmarshal c) as [e'|col]; simpl; [congruence|].
  destruct (DecodeOne (Column_Value col)) as [e'|[rest d]]; simpl;
    [congruence|].
  destruct (DecodeOne (Column_ChangedValue col)) as [e'|[rest' d']]; simpl;
    congruence.
Qed.

Lemma updateValues_from_panic c row values oldValues :
  columnDecodes true c = true → columnTyped c = false →
  updateValues_from (c :: row) values oldValues = Panic.
Proof.
  unfold columnDecodes, columnTyped, decodes. simpl.
  destruct (Unmarshal c) as [e'|col]; simpl; [done|].
  destruct (DecodeOne (Column_Value col)) as [e'|[rest d]]; simpl; [done|].
  destruct (DecodeOne (Column_ChangedValue col)) as [e'|[rest' d']]; simpl;
    [done|].
  by destruct (Column_Tp col).
Qed.

(** ** One event *)

Lemma genColsAndArgs_passes row :
  forallb (columnPasses false) row = true →
  genColsAndArgs row = Ok (rowNames row, rowArgs row).
Proof.
  intros Hrow. unfold genColsAndArgs.
  rewrite <- (app_nil_r row) at 1.
  by rewrite genColsAndArgs_from_passes.
Qed.

(** An event all of whose columns pass gives the DML read off its row. *)
Lemma eventToDML_passes event :
  isOther (Event_Tp event) = false →
  forallb (columnPasses (isUpdate (Event_Tp event))) (Event_Row event) = true →
  eventToDML event = Ok (dmlOf event).
Proof.
  unfold eventToDML, dmlOf.
  destruct (Event_Tp event) eqn:Htp; cbn [isOther isUpdate dmlTypeOf];
    intros Hother Hrow; try done.
  - rewrite genColsAndArgs_passes by done. cbn.
    destruct (passes_lengths _ _ Hrow) as (_ & Hn & Ha & _).
    rewrite setValues_fill by congruence. done.
  - rewrite <- (app_nil_r (Event_Row event)) at 1.
    by rewrite updateValues_from_passes.
  - rewrite genColsAndArgs_passes by done. cbn.
    destruct (passes_lengths _ _ Hrow) as (_ & Hn & Ha & _).
    rewrite setValues_fill by congruence. done.
Qed.

(** The first entry that does not decode ends the translation of the event
    with its error: traced once by the loop of an update, twice on the way
    through [genColsAndArgs]. *)
Lemma eventToDML_error event pre c post e :
  isOther (Event_Tp event) = false →
  Event_Row event = pre ++ c :: post →
  forallb (columnPasses (isUpdate (Event_Tp event))) pre = true →
  columnError (isUpdate (Event_Tp event)) c = Some e →
  eventToDML event =
  Err (if isUpdate (Event_Tp event) then Trace e else Trace (Trace e)).
Proof.
  unfold eventToDML. intros Hother -> Hpre He.
  destruct (Event_Tp event) eqn:Htp; cbn [isOther isUpdate] in *; try done.
  - unfold genColsAndArgs. rewrite genColsAndArgs_from_passes by done.
    by rewrite (genColsAndArgs_from_error _ _ _ _ _ He).
  - rewrite updateValues_from_passes by done.
    by rewrite (updateValues_from_error _ _ _ _ _ He).
  - unfold genColsAndArgs. rewrite genColsAndArgs_from_passes by done.
    by rewrite (genColsAndArgs_from_error _ _ _ _ _ He).
Qed.

(** The first entry that decodes with an empty type descriptor ends it in a
    panic. *)
Lemma eventToDML_panic event pre c post :
  isOther (Event_Tp event) = false →
  Event_Row event = pre ++ c :: post →
  forallb (columnPasses (isUpdate (Event_Tp event))) pre = true →
  columnDecodes (isUpdate (Event_Tp event)) c = true →
  columnTyped c = false →
  eventToDML event = Panic.
Proof.
  unfold eventToDML. intros Hother -> Hpre Hdec Hty.
  destruct (Event_Tp event) eqn:Htp; cbn [isOther isUpdate] in *; try done.
  - unfold genColsAndArgs. rewrite genColsAndArgs_from_passes by done.
    by rewrite genColsAndArgs_from_panic.
  - rewrite updateValues_from_passes by done.
    by rewrite updateValues_from_panic.
  - unfold genColsAndArgs. rewrite genColsAndArgs_from_passes by done.
    by rewrite genColsAndArgs_from_panic.
Qed.

Lemma eventToDML_other event :
  isOther (Event_Tp event) = true →
  eventToDML event =
  Err (Errorf ("unknown type: " +:+ EventType_String (Event_Tp event))).
Proof. unfold eventToDML. by destruct (Event_Tp event). Qed.

(** The three ways the translation of an event ends. *)
Lemma eventToDML_cases event :
  (isOther (Event_Tp event) = false ∧
   forallb (columnPasses (isUpdate (Event_Tp event))) (Event_Row event) = true ∧
   eventToDML event = Ok (dmlOf event)) ∨
  (eventFails event = true ∧ ∃ e, eventToDML event = Err e) ∨
  (∃ c, c ∈ Event_Row event ∧ columnTyped c = false ∧
        eventToDML event = Panic).
Proof.
  destruct (isOther (Event_Tp event)) eqn:Hother.
  { right; left. unfold eventFails. rewrite Hother.
    split; [done|]. eexists. by apply eventToDML_other. }
  destruct (row_first_stop (isUpdate (Event_Tp event)) (Event_Row event))
    as [Hrow|(pre & c & post & Hsplit & Hpre & Hc)].
  { left. split_and!; try done. by apply eventToDML_passes. }
  destruct (columnDecodes (isUpdate (Event_Tp event)) c) eqn:Hdec.
  - right; right. exists c. unfold columnPasses in Hc. rewrite Hdec in Hc.
    split_and!; try done.
    + rewrite Hsplit. set_solver.
    + by eapply eventToDML_panic.
  - right; left. split.
    + unfold eventFails. rewrite Hother, Hsplit, existsb_app. cbn.
      rewrite Hdec. cbn. by rewrite orb_true_r.
    + apply columnError_decodes in Hdec as [e He].
      eexists. by eapply eventToDML_error.
Qed.

Lemma forallb_passes_decodes update row :
  forallb (columnPasses update) row = true →
  existsb (fun c => negb (columnDecodes update c)) row = false.
Proof.
  induction row as [|c row IH]; [done|]. cbn.
  intros [[Hd _]%andb_true_iff Hrow]%andb_true_iff.
  rewrite Hd. cbn. by apply IH.
Qed.

Lemma eventToDML_Ok event dml :
  eventToDML event = Ok dml →
  dml = dmlOf event ∧
  eventFails event = false ∧
  forallb (columnPasses (isUpdate (Event_Tp event))) (Event_Row event) = true.
Proof.
  intros Hok.
  destruct (eventToDML_cases event)
    as [(Hother & Hrow & Heq)|[(_ & e & Heq)|(c & _ & _ & Heq)]];
    rewrite Heq in Hok; simplify_eq.
  split_and!; try done.
  unfold eventFails. rewrite Hother. cbn. by apply forallb_passes_decodes.
Qed.

(** ** The events of a record *)

Lemma eventsToDMLs_from_passes pre events dmls ds :
  Forall2 translates pre ds →
  eventsToDMLs_from (pre ++ events) dmls = eventsToDMLs_from events (dmls ++ ds).
Proof.
  intros Hpre. revert dmls.
  induction Hpre as [|event dml pre ds Hev _ IH]; intros dmls.
  - by rewrite app_nil_r.
  - cbn. rewrite Hev. cbn. rewrite IH. by rewrite <- app_assoc.
Qed.

Lemma eventsToDMLs_from_Ok events dmls dmls' :
  eventsToDMLs_from events dmls = Ok dmls' →
  ∃ ds, dmls' = dmls ++ ds ∧ Forall2 translates events ds.
Proof.
  revert dmls. induction events as [|event events IH]; intros dmls; cbn.
  - intros [= <-]. exists []. by rewrite app_nil_r.
  - destruct (eventToDML event) as [dml| |] eqn:Hev; cbn; try done.
    intros (ds & -> & Hds)%IH. exists (dml :: ds).
    rewrite <- app_assoc. split; [done|]. by constructor.
Qed.

(** The first event that does not translate decides how the loop ends. *)
Lemma eventsToDMLs_from_stop pre event post dmls ds :
  Forall2 translates pre ds →
  (∀ dml, eventToDML event ≠ Ok dml) →
  eventsToDMLs_from (pre ++ event :: post) dmls =
  match eventToDML event with
  | Ok _ => Panic
  | Err e => Err e
  | Panic => Panic
  end.
Proof.
  intros Hpre Hev. rewrite (eventsToDMLs_from_passes _ _ _ _ Hpre). cbn.
  destruct (eventToDML event); [by edestruct Hev|done..].
Qed.

Lemma pbBinlogToTxn_DML binlog :
  Binlog_Tp binlog = BinlogType_DML →
  pbBinlogToTxn binlog =
  dmls ← eventsToDMLs_from (GetEvents (Binlog_DmlData binlog)) [];
  Ok {| Txn_DMLs := dmls; Txn_DDL := None |}.
Proof. unfold pbBinlogToTxn. by intros ->. Qed.

Lemma pbBinlogToTxn_DML_Ok binlog txn :
  Binlog_Tp binlog = BinlogType_DML →
  pbBinlogToTxn binlog = Ok txn →
  Txn_DDL txn = None ∧
  Forall2 translates (GetEvents (Binlog_DmlData binlog)) (Txn_DMLs txn).
Proof.
  intros Htp. rewrite (pbBinlogToTxn_DML _ Htp).
  destruct (eventsToDMLs_from _ _) as [dmls| |] eqn:Hev; cbn; try done.
  intros [= <-]. cbn. by apply eventsToDMLs_from_Ok in Hev as (ds & -> & Hds).
Qed.

(** Typed columns keep the translation from panicking. *)
Lemma eventToDML_typed event :
  forallb columnTyped (Event_Row event) = true → eventToDML event ≠ Panic.
Proof.
  intros Hty.
  destruct (eventToDML_cases event)
    as [(_ & _ & Heq)|[(_ & e & Heq)|(c & Hc & Hc' & _)]];
    try (rewrite Heq; done).
  rewrite forallb_forall in Hty. apply list_elem_of_In, Hty in Hc.
  congruence.
Qed.

Lemma eventsToDMLs_from_typed events dmls :
  eventsTyped events = true → eventsToDMLs_from events dmls ≠ Panic.
Proof.
  unfold eventsTyped. revert dmls.
  induction events as [|event events IH]; intros dmls; [done|].
  cbn. intros [Hev Hevs]%andb_true_iff.
  pose proof (eventToDML_typed _ Hev).
  destruct (eventToDML event); cbn; try done. by apply IH.
Qed.

(** The values of a row all of whose columns pass. *)
Lemma passes_rowArgs update row :
  forallb (columnPasses update) row = true →
  Forall2 (fun col a => formatted (Column_Value col) (Column_Tp col) = Some a)
    (rowColumns row) (rowArgs row).
Proof.
  induction row as [|c row IH]; [constructor|].
  cbn [forallb]. intros [Hc Hrow]%andb_true_iff.
  destruct (columnPasses_inv _ _ Hc)
    as (col & rest & d & tp & tps & Hu & Hd & Htp & _).
  pose proof (formatted_Some _ _ _ _ _ _ Hd Htp) as Hf.
  rewrite (rowColumns_cons _ _ _ Hu), (rowArgs_cons _ _ _ _ Hu Hf).
  constructor; [done|]. by apply IH.
Qed.

(** A record whose events do not fail and whose columns are typed
    translates, to the DMLs read off its events. *)
Lemma pbBinlogToTxn_translates binlog :
  Binlog_Tp binlog = BinlogType_DML →
  existsb eventFails (GetEvents (Binlog_DmlData binlog)) = false →
  eventsTyped (GetEvents (Binlog_DmlData binlog)) = true →
  pbBinlogToTxn binlog =
  Ok {| Txn_DMLs := dmlOf <$> GetEvents (Binlog_DmlData binlog);
        Txn_DDL := None |}.
Proof.
  intros Htp Hfails Hty. rewrite (pbBinlogToTxn_DML _ Htp).
  assert (Hall : Forall2 translates (GetEvents (Binlog_DmlData binlog))
                   (dmlOf <$> GetEvents (Binlog_DmlData binlog))).
  { unfold eventsTyped in Hty.
    induction (GetEvents (Binlog_DmlData binlog)) as [|event events IH];
      [constructor|].
    cbn in Hfails, Hty.
    apply orb_false_iff in Hfails as [Hev Hevs].
    apply andb_true_iff in Hty as [Hrow Hrows].
    constructor; [|by apply IH].
    destruct (eventToDML_cases event)
      as [(_ & _ & Heq)|[(Hf & _)|(c & Hc & Hc' & _)]]; [done|congruence|].
    rewrite forallb_forall in Hrow. apply list_elem_of_In, Hrow in Hc.
    congruence. }
  rewrite <- (app_nil_r (GetEvents (Binlog_DmlData binlog))) at 1.
  by rewrite (eventsToDMLs_from_passes _ _ _ _ Hall).
Qed.

(** ** The claims on DML records *)

(** C7. The operations of a translated DML record follow the events of the
    record: there are as many, and the i-th operation is the translation of
    the i-th event, with its schema, its table and its kind. *)
Theorem operations_follow_events binlog txn :
  Binlog_Tp binlog = BinlogType_DML →
  pbBinlogToTxn binlog = Ok txn →
  length (Txn_DMLs txn) = length (GetEvents (Binlog_DmlData binlog)) ∧
  ∀ i event,
    GetEvents (Binlog_DmlData binlog) !! i = Some event →
    ∃ dml,
      Txn_DMLs txn !! i = Some dml ∧
      eventToDML event = Ok dml ∧
      DML_Database dml = Event_SchemaName event ∧
      DML_Table dml = Event_TableName event ∧
      DML_Tp dml = dmlTypeOf (Event_Tp event).
Proof.
  intros Htp Hok.
  destruct (pbBinlogToTxn_DML_Ok _ _ Htp Hok) as [_ Hall].
  split; [symmetry; by eapply Forall2_length|].
  intros i event Hi.
  destruct (Forall2_lookup_l _ _ _ _ _ Hall Hi) as (dml & Hdml & Hev).
  exists dml. split_and!; try done;
    by apply eventToDML_Ok in Hev as (-> & _ & _).
Qed.

(** C6. In a translated record, an update has both maps made, with the same
    keys; an insert or a delete has [Values] made and [OldValues] left
    nil.  The keys of [Values] are the names of the columns of the event. *)
Theorem maps_by_kind binlog txn dml :
  pbBinlogToTxn binlog = Ok txn →
  dml ∈ Txn_DMLs txn →
  ∃ event values,
    event ∈ GetEvents (Binlog_DmlData binlog) ∧
    DML_Values dml = Some values ∧
    dom values = list_to_set (rowNames (Event_Row event)) ∧
    match DML_Tp dml with
    | UpdateDMLType =>
        ∃ oldValues,
          DML_OldValues dml = Some oldValues ∧ dom values = dom oldValues
    | InsertDMLType | DeleteDMLType => DML_OldValues dml = None
    | UnknownDMLType => False
    end.
Proof.
  intros Hok Hin.
  destruct (Binlog_Tp binlog) eqn:Htp.
  - destruct (pbBinlogToTxn_DML_Ok _ _ Htp Hok) as [_ Hall].
    apply list_elem_of_lookup in Hin as [i Hi].
    destruct (Forall2_lookup_r _ _ _ _ _ Hall Hi) as (event & Hev & Htr).
    apply eventToDML_Ok in Htr as (-> & Hfails & Hrow).
    destruct (passes_lengths _ _ Hrow) as (_ & Hn & Ha & Hc).
    assert (Hother : isOther (Event_Tp event) = false).
    { unfold eventFails in Hfails. by apply orb_false_iff in Hfails as [? _]. }
    exists event. unfold dmlOf. cbn [DML_Values DML_OldValues DML_Tp].
    eexists. split; [by eapply list_elem_of_lookup_2|].
    split; [done|].
    assert (Hdom : ∀ args, length args = length (Event_Row event) →
      dom (fill (zip (rowNames (Event_Row event)) args) ∅) =
      list_to_set (C:=gset string) (rowNames (Event_Row event))).
    { intros args Hargs. rewrite dom_fill, fst_zip, dom_empty_L by lia.
      apply (left_id_L ∅ (∪)). }
    destruct (Event_Tp event) eqn:Hk; cbn [isUpdate isOther dmlTypeOf] in *;
      try done.
    + by rewrite Hdom.
    + rewrite !Hdom by auto. split; [done|]. eexists. split; [done|].
      by rewrite Hdom.
    + by rewrite Hdom.
  - unfold pbBinlogToTxn in Hok. rewrite Htp in Hok.
    destruct (retrace _) as [[db tbl]| |]; cbn in Hok; try done.
    destruct (Nat.eqb _ _); simplify_eq. cbn in Hin. by apply elem_of_nil in Hin.
  - unfold pbBinlogToTxn in Hok. by rewrite Htp in Hok.
Qed.

(** C1 as amended. A DML record with an event that fails to translate (an
    unknown type, a column that does not unmarshal, a payload the codec
    rejects) gives no transaction, whatever the other events are; and it
    returns an error when the columns that unmarshal all have a type
    descriptor with a first byte. *)
Theorem no_partial_batch binlog :
  Binlog_Tp binlog = BinlogType_DML →
  existsb eventFails (GetEvents (Binlog_DmlData binlog)) = true →
  (∀ txn, pbBinlogToTxn binlog ≠ Ok txn) ∧
  (eventsTyped (GetEvents (Binlog_DmlData binlog)) = true →
   ∃ e, pbBinlogToTxn binlog = Err e).
Proof.
  intros Htp Hfails.
  assert (Hno : ∀ txn, pbBinlogToTxn binlog ≠ Ok txn).
  { intros txn Hok.
    destruct (pbBinlogToTxn_DML_Ok _ _ Htp Hok) as [_ Hall].
    apply existsb_exists in Hfails as (event & Hin & Hev).
    apply list_elem_of_In, list_elem_of_lookup in Hin as [i Hi].
    destruct (Forall2_lookup_l _ _ _ _ _ Hall Hi) as (dml & _ & Htr).
    apply eventToDML_Ok in Htr as (_ & Hnot & _). congruence. }
  split; [done|]. intros Hty.
  destruct (pbBinlogToTxn binlog) as [txn|e|] eqn:Hres.
  - by destruct (Hno txn).
  - by exists e.
  - rewrite (pbBinlogToTxn_DML _ Htp) in Hres.
    pose proof (eventsToDMLs_from_typed _ [] Hty) as Hnp.
    by destruct (eventsToDMLs_from _ _).
Qed.

(** C10. The translation of a DML record does not panic when every column
    that unmarshals has a type descriptor with a first byte; and it panics,
    rather than return an error, at the first column it reaches whose
    payloads decode and whose type descriptor is empty. *)
Theorem type_tag_precondition binlog :
  Binlog_Tp binlog = BinlogType_DML →
  (eventsTyped (GetEvents (Binlog_DmlData binlog)) = true →
   pbBinlogToTxn binlog ≠ Panic) ∧
  (∀ pre event post ds rpre c rpost col,
     GetEvents (Binlog_DmlData binlog) = pre ++ event :: post →
     Forall2 translates pre ds →
     isOther (Event_Tp event) = false →
     Event_Row event = rpre ++ c :: rpost →
     forallb (columnPasses (isUpdate (Event_Tp event))) rpre = true →
     Unmarshal c = inr col →
     codecError (isUpdate (Event_Tp event)) col = None →
     Column_Tp col = [] →
     index0 (Column_Tp col) = Panic (A:=byte) ∧
     pbBinlogToTxn binlog = Panic).
Proof.
  intros Htp. split.
  - intros Hty. rewrite (pbBinlogToTxn_DML _ Htp).
    pose proof (eventsToDMLs_from_typed _ [] Hty) as Hnp.
    by destruct (eventsToDMLs_from _ _).
  - intros pre event post ds rpre c rpost col Hevs Hpre Hother Hrow Hrpre
      Hu Hcodec Hempty.
    split; [by rewrite Hempty|].
    assert (Hpanic : eventToDML event = Panic).
    { eapply eventToDML_panic; try done.
      - destruct (columnDecodes (isUpdate (Event_Tp event)) c) eqn:Hdec;
          [done|].
        apply columnError_decodes in Hdec as [e He].
        unfold columnError in He. rewrite Hu in He. congruence.
      - unfold columnTyped. by rewrite Hu, Hempty. }
    rewrite (pbBinlogToTxn_DML _ Htp), Hevs.
    rewrite (eventsToDMLs_from_stop _ _ _ _ _ Hpre); rewrite Hpanic; done.
Qed.

(** C8 as amended. When the codec rejects a payload of the first column that
    stops the translation, the record fails with an error whose message is
    the message of the codec on that payload, with nothing added: the error
    is the one of the codec as [errors.Trace] leaves it, itself when it has
    a stack. *)
Theorem codec_error_returned binlog pre event post ds rpre c rpost col e :
  Binlog_Tp binlog = BinlogType_DML →
  GetEvents (Binlog_DmlData binlog) = pre ++ event :: post →
  Forall2 translates pre ds →
  isOther (Event_Tp event) = false →
  Event_Row event = rpre ++ c :: rpost →
  forallb (columnPasses (isUpdate (Event_Tp event))) rpre = true →
  Unmarshal c = inr col →
  codecError (isUpdate (Event_Tp event)) col = Some e →
  ∃ err,
    pbBinlogToTxn binlog = Err err ∧
    Error err = Error e ∧
    err = Trace e ∧
    (HasStack e = true → err = e).
Proof.
  intros Htp Hevs Hpre Hother Hrow Hrpre Hu Hcodec.
  assert (Herr : eventToDML event = Err (Trace e)).
  { assert (He : columnError (isUpdate (Event_Tp event)) c = Some e)
      by (unfold columnError; by rewrite Hu).
    rewrite (eventToDML_error _ _ _ _ _ Hother Hrow Hrpre He).
    destruct (isUpdate _); [done|by rewrite Trace_Trace]. }
  exists (Trace e). split_and!;
    [|apply Error_Trace|done|apply Trace_stacked].
  rewrite (pbBinlogToTxn_DML _ Htp), Hevs.
  rewrite (eventsToDMLs_from_stop _ _ _ _ _ Hpre); rewrite Herr; done.
Qed.

(** The values of an insert or a delete of a translated record. *)
Lemma values_of_translated binlog txn i event :
  Binlog_Tp binlog = BinlogType_DML →
  pbBinlogToTxn binlog = Ok txn →
  GetEvents (Binlog_DmlData binlog) !! i = Some event →
  Event_Tp event = EventType_Insert ∨ Event_Tp event = EventType_Delete →
  ∃ dml values,
    Txn_DMLs txn !! i = Some dml ∧
    DML_Values dml = Some values ∧
    length (rowColumns (Event_Row event)) = length (Event_Row event) ∧
    dom values = list_to_set (rowNames (Event_Row event)) ∧
    (∀ j col,
       rowColumns (Event_Row event) !! j = Some col →
       Column_Name col ∉ drop (S j) (rowNames (Event_Row event)) →
       ∃ v, formatted (Column_Value col) (Column_Tp col) = Some v ∧
            values !! Column_Name col = Some v) ∧
    (NoDup (rowNames (Event_Row event)) →
     size values = length (Event_Row event) ∧
     ∀ col, col ∈ rowColumns (Event_Row event) →
       ∃ v, formatted (Column_Value col) (Column_Tp col) = Some v ∧
            values !! Column_Name col = Some v).
Proof.
  intros Htp Hok Hi Hkind.
  destruct (pbBinlogToTxn_DML_Ok _ _ Htp Hok) as [_ Hall].
  destruct (Forall2_lookup_l _ _ _ _ _ Hall Hi) as (dml & Hdml & Htr).
  apply eventToDML_Ok in Htr as (-> & _ & Hrow).
  assert (Hup : isUpdate (Event_Tp event) = false) by by destruct Hkind as [->| ->].
  rewrite Hup in Hrow.
  destruct (passes_lengths _ _ Hrow) as (Hcols & Hn & Ha & _).
  pose proof (passes_rowArgs _ _ Hrow) as Hargs.
  exists (dmlOf event). unfold dmlOf at 2. rewrite Hup.
  cbn [DML_Values]. eexists. split; [done|]. split; [done|].
  split; [done|].
  set (names := rowNames (Event_Row event)) in *.
  set (args := rowArgs (Event_Row event)) in *.
  assert (Hfst : (zip names args).*1 = names) by (apply fst_zip; lia).
  assert (Hdom : dom (fill (zip names args) ∅) = list_to_set (C:=gset string) names).
  { rewrite dom_fill, Hfst, dom_empty_L. apply (left_id_L ∅ (∪)). }
  assert (Hlast : ∀ j col,
    rowColumns (Event_Row event) !! j = Some col →
    Column_Name col ∉ drop (S j) names →
    ∃ v, formatted (Column_Value col) (Column_Tp col) = Some v ∧
         fill (zip names args) ∅ !! Column_Name col = Some v).
  { intros j col Hj Hlater.
    destruct (Forall2_lookup_l _ _ _ _ _ Hargs Hj) as (v & Hv & Hf).
    exists v. split; [done|].
    apply (lookup_fill_last _ j).
    - apply lookup_zip_with_Some. exists (Column_Name col), v.
      split_and!; try done. unfold names, rowNames.
      by rewrite list_lookup_fmap, Hj.
    - by rewrite fmap_drop, Hfst. }
  split_and!; try done.
  intros Hnodup. split.
  - rewrite <- size_dom, Hdom, size_list_to_set by done. lia.
  - intros col [j Hj]%list_elem_of_lookup. apply (Hlast j); [done|].
    assert (Hnj : names !! j = Some (Column_Name col)).
    { unfold names, rowNames. by rewrite list_lookup_fmap, Hj. }
    intros [k Hk]%list_elem_of_lookup. rewrite lookup_drop in Hk.
    pose proof (NoDup_lookup _ _ _ _ Hnodup Hnj Hk). lia.
Qed.

(** C2 as amended. A DML record none of whose events fails, and whose
    columns all have a type descriptor with a first byte, translates; the
    [Values] of an insert or a delete of it has the names of the columns of
    the event as its keys, and under a name the formatted value of the
    last column of that name; with names that are pairwise distinct it has
    as many keys as the event has columns, and every column has its
    formatted value under its name. *)
Theorem insert_delete_values binlog i event :
  Binlog_Tp binlog = BinlogType_DML →
  existsb eventFails (GetEvents (Binlog_DmlData binlog)) = false →
  eventsTyped (GetEvents (Binlog_DmlData binlog)) = true →
  GetEvents (Binlog_DmlData binlog) !! i = Some event →
  Event_Tp event = EventType_Insert ∨ Event_Tp event = EventType_Delete →
  ∃ txn dml values,
    pbBinlogToTxn binlog = Ok txn ∧
    Txn_DMLs txn !! i = Some dml ∧
    DML_Values dml = Some values ∧
    length (rowColumns (Event_Row event)) = length (Event_Row event) ∧
    dom values = list_to_set (rowNames (Event_Row event)) ∧
    (∀ j col,
       rowColumns (Event_Row event) !! j = Some col →
       Column_Name col ∉ drop (S j) (rowNames (Event_Row event)) →
       ∃ v, formatted (Column_Value col) (Column_Tp col) = Some v ∧
            values !! Column_Name col = Some v) ∧
    (NoDup (rowNames (Event_Row event)) →
     size values = length (Event_Row event) ∧
     ∀ col, col ∈ rowColumns (Event_Row event) →
       ∃ v, formatted (Column_Value col) (Column_Tp col) = Some v ∧
            values !! Column_Name col = Some v).
Proof.
  intros Htp Hfails Hty Hi Hkind.
  pose proof (pbBinlogToTxn_translates _ Htp Hfails Hty) as Hok.
  destruct (values_of_translated _ _ _ _ Htp Hok Hi Hkind)
    as (dml & values & Hvalues).
  eexists _, dml, values. split; [exact Hok|exact Hvalues].
Qed.

(** ** The statements of a DDL *)

Lemma schemaOf_qualified t schema :
  CIStr_O (TableName_Schema t) ≠ "" →
  schemaOf t schema = CIStr_O (TableName_Schema t).
Proof. unfold schemaOf. by destruct (CIStr_O (TableName_Schema t)). Qed.

Lemma schemaOf_unqualified t schema :
  CIStr_O (TableName_Schema t) = "" → schemaOf t schema = schema.
Proof. unfold schemaOf. by intros ->. Qed.

Lemma walkStmts_app ddlQuery stmts1 stmts2 haveUseStmt schema table :
  walkStmts ddlQuery (stmts1 ++ stmts2) haveUseStmt schema table =
  '(haveUseStmt', schema', table') ←
    walkStmts ddlQuery stmts1 haveUseStmt schema table;
  walkStmts ddlQuery stmts2 haveUseStmt' schema' table'.
Proof.
  revert haveUseStmt schema table.
  induction stmts1 as [|stmt stmts1 IH]; intros haveUseStmt schema table;
    [done|].
  destruct stmt as [| | | | | | | |[|t ts]| |]; cbn; by rewrite ?IH.
Qed.

(** The step of the loop on a statement on a table. *)
Lemma walkStmts_table ddlQuery stmt stmts t haveUseStmt schema table :
  tableOf stmt = Some t →
  walkStmts ddlQuery (stmt :: stmts) haveUseStmt schema table =
  walkStmts ddlQuery stmts haveUseStmt (schemaOf t schema)
    (CIStr_O (TableName_Name t)).
Proof.
  destruct stmt as [| | | | | | | |[|t' ts]| |]; cbn; try done;
    by intros [= ->].
Qed.

(** The loop sets [haveUseStmt] when it meets a USE, and only then. *)
Lemma walkStmts_haveUseStmt ddlQuery stmts haveUseStmt schema table r :
  walkStmts ddlQuery stmts haveUseStmt schema table = Ok r →
  r.1.1 = haveUseStmt || existsb isUse stmts.
Proof.
  revert haveUseStmt schema table.
  induction stmts as [|stmt stmts IH]; intros haveUseStmt schema table.
  - cbn. intros [= <-]. cbn. by rewrite orb_false_r.
  - destruct stmt as [| | | | | | | |[|t ts]| |]; cbn; try done;
      intros ->%IH; try done.
    by rewrite orb_true_r.
Qed.

Lemma walkStmts_resolvable ddlQuery stmts haveUseStmt schema table :
  forallb resolvable stmts = true →
  ∃ r, walkStmts ddlQuery stmts haveUseStmt schema table = Ok r.
Proof.
  revert haveUseStmt schema table.
  induction stmts as [|stmt stmts IH]; intros haveUseStmt schema table.
  - by eexists.
  - destruct stmt as [| | | | | | | |[|t ts]| |]; cbn; try done; apply IH.
Qed.

Lemma checkCount_countRule ddlQuery stmts schema table :
  checkCount ddlQuery stmts (existsb isUse stmts) schema table =
  if countRule stmts then Ok (schema, table)
  else Err (Errorf ("invalid ddl " +:+ ddlQuery)).
Proof.
  unfold checkCount, countRule.
  by destruct (existsb isUse stmts), (Nat.eqb _ _).
Qed.

(** What the resolution of parsed statements comes to. *)
Lemma resolveStmts_walk ddlQuery stmts :
  resolveStmts ddlQuery stmts =
  match walkStmts ddlQuery stmts false "" "" with
  | Ok (_, schema, table) =>
      if countRule stmts then Ok (schema, table)
      else Err (Errorf ("invalid ddl " +:+ ddlQuery))
  | Err e => Err e
  | Panic => Panic
  end.
Proof.
  unfold resolveStmts.
  destruct (walkStmts _ _ _ _ _) as [[[h schema] table]| |] eqn:Hwalk;
    cbn; try done.
  apply walkStmts_haveUseStmt in Hwalk. cbn in Hwalk. subst h.
  apply checkCount_countRule.
Qed.

Lemma parserSchemaTableFromDDL_parsed ddlQuery stmts :
  Parse ddlQuery = inr stmts →
  parserSchemaTableFromDDL ddlQuery = resolveStmts ddlQuery stmts.
Proof. unfold parserSchemaTableFromDDL. by intros ->. Qed.

(** ** The claims on DDL records *)

(** C3. A DDL text that parses resolves only when the number of its
    statements is right: two when one of them is a USE, one otherwise.
    When every statement is one the resolver goes through, the resolution
    fails with "invalid ddl" if the number is wrong, and succeeds if it is
    right. *)
Theorem statement_count_rule ddlQuery stmts :
  Parse ddlQuery = inr stmts →
  (∀ schema table,
     parserSchemaTableFromDDL ddlQuery = Ok (schema, table) →
     if existsb isUse stmts then length stmts = 2 else length stmts = 1) ∧
  (forallb resolvable stmts = true →
   if countRule stmts
   then ∃ schema table, parserSchemaTableFromDDL ddlQuery = Ok (schema, table)
   else parserSchemaTableFromDDL ddlQuery =
        Err (Errorf ("invalid ddl " +:+ ddlQuery))).
Proof.
  intros Hparse. rewrite (parserSchemaTableFromDDL_parsed _ _ Hparse).
  rewrite resolveStmts_walk. split.
  - intros schema table.
    destruct (walkStmts _ _ _ _ _) as [[[h schema'] table']| |]; try done.
    unfold countRule.
    destruct (existsb isUse stmts); destruct (Nat.eqb_spec (length stmts) 2);
      destruct (Nat.eqb_spec (length stmts) 1); done.
  - intros Hres.
    destruct (walkStmts_resolvable ddlQuery stmts false "" "" Hres)
      as [[[h schema] table] ->].
    destruct (countRule stmts); eauto.
Qed.

(** C4 as amended. When the last statement of a DDL is a statement on a
    table, the table resolved is its table and the schema resolved is its
    qualifier when it has one, whatever a USE before it has set; without a
    qualifier the schema of the USE before it is kept. *)
Theorem explicit_qualifier_wins ddlQuery pre stmt t :
  Parse ddlQuery = inr (pre ++ [stmt]) →
  tableOf stmt = Some t →
  (∀ schema table,
     parserSchemaTableFromDDL ddlQuery = Ok (schema, table) →
     table = CIStr_O (TableName_Name t) ∧
     (CIStr_O (TableName_Schema t) ≠ "" →
      schema = CIStr_O (TableName_Schema t)) ∧
     (CIStr_O (TableName_Schema t) = "" →
      ∀ db, pre = [UseStmt db] → schema = db)) ∧
  (∀ db, pre = [UseStmt db] →
     parserSchemaTableFromDDL ddlQuery =
     Ok (if String.eqb (CIStr_O (TableName_Schema t)) ""
         then db else CIStr_O (TableName_Schema t),
         CIStr_O (TableName_Name t))).
Proof.
  intros Hparse Ht. rewrite (parserSchemaTableFromDDL_parsed _ _ Hparse).
  rewrite resolveStmts_walk, walkStmts_app. split.
  - intros schema table.
    destruct (walkStmts ddlQuery pre _ _ _) as [[[h s'] t']| |] eqn:Hpre;
      cbn [mbind result_bind]; try done.
    rewrite (walkStmts_table _ _ _ _ _ _ _ Ht). cbn.
    destruct (countRule _); [|done]. intros [= <- <-].
    split_and!; [done|apply schemaOf_qualified|].
    intros Hq db ->. cbn in Hpre. injection Hpre as _ <- _.
    by apply schemaOf_unqualified.
  - intros db ->.
    change (walkStmts ddlQuery [UseStmt db] false "" "") with
      (Ok (A:=bool * string * string) (true, db, "")).
    cbn [mbind result_bind].
    rewrite (walkStmts_table _ _ _ _ _ _ _ Ht). cbn.
    unfold schemaOf. by destruct (CIStr_O (TableName_Schema t)).
Qed.

(** C9 as amended. A RENAME TABLE resolves by its new table: the old table
    has no part in the result of the resolution, and a DDL that ends in the
    RENAME TABLE resolves to the name of the new table, and to the
    qualifier of the new table when it has one. *)
Theorem rename_resolves_to_new ddlQuery pre old new post :
  Parse ddlQuery = inr (pre ++ RenameTableStmt old new :: post) →
  (∀ old',
     resolveStmts ddlQuery (pre ++ RenameTableStmt old' new :: post) =
     parserSchemaTableFromDDL ddlQuery) ∧
  (post = [] →
   ∀ schema table,
     parserSchemaTableFromDDL ddlQuery = Ok (schema, table) →
     table = CIStr_O (TableName_Name new) ∧
     (CIStr_O (TableName_Schema new) ≠ "" →
      schema = CIStr_O (TableName_Schema new))) ∧
  (pre = [] → post = [] →
   parserSchemaTableFromDDL ddlQuery =
   Ok (CIStr_O (TableName_Schema new), CIStr_O (TableName_Name new))).
Proof.
  intros Hparse. rewrite (parserSchemaTableFromDDL_parsed _ _ Hparse).
  split_and!.
  - intros old'. rewrite !resolveStmts_walk, !walkStmts_app.
    unfold countRule. rewrite !existsb_app, !length_app. cbn.
    by destruct (walkStmts ddlQuery pre _ _ _) as [[[h s'] t']| |].
  - intros -> schema table. rewrite resolveStmts_walk, walkStmts_app.
    destruct (walkStmts ddlQuery pre _ _ _) as [[[h s'] t']| |];
      cbn; try done.
    destruct (countRule _); [|done]. intros [= <- <-].
    split; [done|apply schemaOf_qualified].
  - intros -> ->. cbn. unfold schemaOf.
    by destruct (CIStr_O (TableName_Schema new)).
Qed.

(** C5. A transaction with a DDL has a schema that is not empty, the one
    the resolution gave; a DDL record whose resolution fails, or gives an
    empty schema, fails with an error. *)
Theorem ddl_schema_nonempty binlog :
  (∀ txn ddl,
     pbBinlogToTxn binlog = Ok txn → Txn_DDL txn = Some ddl →
     Binlog_Tp binlog = BinlogType_DDL ∧
     DDL_Database ddl ≠ "" ∧
     DDL_SQL ddl = String.string_of_list_byte (Binlog_DdlQuery binlog) ∧
     parserSchemaTableFromDDL (DDL_SQL ddl) =
       Ok (DDL_Database ddl, DDL_Table ddl)) ∧
  (Binlog_Tp binlog = BinlogType_DDL →
   (∀ e,
      parserSchemaTableFromDDL
        (String.string_of_list_byte (Binlog_DdlQuery binlog)) = Err e →
      pbBinlogToTxn binlog = Err (Trace e)) ∧
   (∀ table,
      parserSchemaTableFromDDL
        (String.string_of_list_byte (Binlog_DdlQuery binlog)) = Ok ("", table) →
      pbBinlogToTxn binlog =
      Err (Errorf ("can't parse database name from DDL " +:+
                   String.string_of_list_byte (Binlog_DdlQuery binlog))))).
Proof.
  unfold pbBinlogToTxn. split.
  - intros txn ddl.
    destruct (Binlog_Tp binlog) eqn:Htp.
    + destruct (eventsToDMLs_from _ _); cbn; try done. by intros [= <-].
    + destruct (parserSchemaTableFromDDL _) as [[db tbl]| |] eqn:Hres;
        cbn; try done.
      destruct db as [|a db]; cbn; [done|].
      intros [= <-] [= <-]. by cbn.
    + done.
  - intros ->. split.
    + by intros e ->.
    + by intros table ->.
Qed.

End Properties.

(** * More properties of the three functions *)

Section MoreProperties.
Context {ext : Externals}.

Implicit Types (row : list (list byte)) (c : list byte) (col : Column).
Implicit Types (event : Event) (events : list Event).

(** ** Rows, again *)

Lemma passes_rowColumns update row :
  forallb (columnPasses update) row = true →
  Forall2 (fun c col => Unmarshal c = inr col) row (rowColumns row).
Proof.
  induction row as [|c row IH]; [constructor|].
  cbn [forallb]. intros [Hc Hrow]%andb_true_iff.
  destruct (columnPasses_inv _ _ Hc) as (col & _ & _ & _ & _ & Hu & _).
  rewrite (rowColumns_cons _ _ _ Hu). constructor; [done|by apply IH].
Qed.

Lemma passes_rowChanged row :
  forallb (columnPasses true) row = true →
  Forall2
    (fun col a => formatted (Column_ChangedValue col) (Column_Tp col) = Some a)
    (rowColumns row) (rowChanged row).
Proof.
  induction row as [|c row IH]; [constructor|].
  cbn [forallb]. intros [Hc Hrow]%andb_true_iff.
  destruct (columnPasses_inv _ _ Hc)
    as (col & rest & d & tp & tps & Hu & Hd & Htp & Hch).
  destruct (Hch eq_refl) as (rest' & d' & Hd').
  pose proof (formatted_Some _ _ _ _ _ _ Hd' Htp) as Hf.
  rewrite (rowColumns_cons _ _ _ Hu), (rowChanged_cons _ _ _ _ Hu Hf).
  constructor; [done|]. by apply IH.
Qed.

(** The columns a row unmarshals to are the columns read off it. *)
Lemma unmarshals_rowColumns row columns :
  Forall2 (fun c col => Unmarshal c = inr col) row columns →
  rowColumns row = columns.
Proof.
  induction 1 as [|c col row columns Hu _ IH]; [done|].
  rewrite (rowColumns_cons _ _ _ Hu). by rewrite IH.
Qed.

Lemma formatted_inv payload tps a :
  formatted payload tps = Some a →
  ∃ rest d tp tps',
    DecodeOne payload = inr (rest, d) ∧ tps = tp :: tps' ∧
    a = GetValue (formatValue d tp).
Proof.
  unfold formatted.
  destruct (DecodeOne payload) as [e|[rest d]]; [done|].
  destruct tps as [|tp tps']; [done|]. intros [= <-]. by eexists _, _, _, _.
Qed.

(** Columns that all have a formatted current value make a row that passes
    the loop of [genColsAndArgs], with these values. *)
Lemma formatted_passes row columns args :
  Forall2 (fun c col => Unmarshal c = inr col) row columns →
  Forall2 (fun col a => formatted (Column_Value col) (Column_Tp col) = Some a)
    columns args →
  forallb (columnPasses false) row = true ∧ rowArgs row = args.
Proof.
  intros Hrow. revert args.
  induction Hrow as [|c col row columns Hu _ IH]; intros args Hargs.
  - by inversion Hargs.
  - inversion Hargs as [|? a ? args' Hf Hargs']; subst.
    destruct (IH _ Hargs') as [IH1 IH2].
    rewrite (rowArgs_cons _ _ _ _ Hu Hf), IH2. split; [|done].
    cbn [forallb]. rewrite IH1, andb_true_r.
    destruct (formatted_inv _ _ _ Hf) as (rest & d & tp & tps & Hd & Htp & _).
    unfold columnPasses, columnDecodes, columnTyped, decodes.
    by rewrite Hu, Hd, Htp.
Qed.

Lemma genColsAndArgs_Ok row cols args :
  genColsAndArgs row = Ok (cols, args) →
  forallb (columnPasses false) row = true ∧
  cols = rowNames row ∧ args = rowArgs row.
Proof.
  intros Hok.
  destruct (row_first_stop false row)
    as [Hrow|(pre & c & post & -> & Hpre & Hc)].
  - rewrite (genColsAndArgs_passes _ Hrow) in Hok. by simplify_eq.
  - unfold genColsAndArgs in Hok.
    rewrite genColsAndArgs_from_passes in Hok by done.
    destruct (columnDecodes false c) eqn:Hdec.
    + unfold columnPasses in Hc. rewrite Hdec in Hc.
      by rewrite genColsAndArgs_from_panic in Hok.
    + apply columnError_decodes in Hdec as [e He].
      by rewrite (genColsAndArgs_from_error _ _ _ _ _ He) in Hok.
Qed.

(** ** genColsAndArgs *)

(** X1. [genColsAndArgs] succeeds exactly when every entry of the row
    unmarshals, its current payload decodes and its type descriptor has a
    first byte; it then returns the names of the columns and their
    formatted values, both in the order of the row. *)
Theorem genColsAndArgs_in_order row cols args :
  genColsAndArgs row = Ok (cols, args) ↔
  ∃ columns,
    Forall2 (fun c col => Unmarshal c = inr col) row columns ∧
    cols = Column_Name <$> columns ∧
    Forall2
      (fun col a => formatted (Column_Value col) (Column_Tp col) = Some a)
      columns args.
Proof.
  split.
  - intros (Hrow & -> & ->)%genColsAndArgs_Ok.
    exists (rowColumns row). split_and!; [|done|].
    + by eapply passes_rowColumns.
    + by eapply passes_rowArgs.
  - intros (columns & Hrow & -> & Hargs).
    destruct (formatted_passes _ _ _ Hrow Hargs) as [Hpass <-].
    rewrite (genColsAndArgs_passes _ Hpass). unfold rowNames.
    by rewrite (unmarshals_rowColumns _ _ Hrow).
Qed.

(** ** pbBinlogToTxn on DML records *)

(** X2. In a translated record, an update has under a name, in [Values],
    the formatted changed payload of the last column of that name and, in
    [OldValues], its formatted current payload, both formatted by the one
    type tag of the column; a column whose two payloads are the same has
    the same value in both maps. *)
Theorem update_values binlog txn i event :
  Binlog_Tp binlog = BinlogType_DML →
  pbBinlogToTxn binlog = Ok txn →
  GetEvents (Binlog_DmlData binlog) !! i = Some event →
  Event_Tp event = EventType_Update →
  ∃ dml values oldValues,
    Txn_DMLs txn !! i = Some dml ∧
    DML_Values dml = Some values ∧
    DML_OldValues dml = Some oldValues ∧
    ∀ j col,
      rowColumns (Event_Row event) !! j = Some col →
      Column_Name col ∉ drop (S j) (rowNames (Event_Row event)) →
      ∃ new old,
        formatted (Column_ChangedValue col) (Column_Tp col) = Some new ∧
        formatted (Column_Value col) (Column_Tp col) = Some old ∧
        values !! Column_Name col = Some new ∧
        oldValues !! Column_Name col = Some old ∧
        (Column_ChangedValue col = Column_Value col → new = old).
Proof.
  intros Htp Hok Hi Hkind.
  destruct (pbBinlogToTxn_DML_Ok _ _ Htp Hok) as [_ Hall].
  destruct (Forall2_lookup_l _ _ _ _ _ Hall Hi) as (dml & Hdml & Htr).
  apply eventToDML_Ok in Htr as (-> & _ & Hrow).
  rewrite Hkind in Hrow. cbn [isUpdate] in Hrow.
  destruct (passes_lengths _ _ Hrow) as (Hcols & Hn & Ha & Hc).
  specialize (Hc eq_refl).
  pose proof (passes_rowArgs _ _ Hrow) as Hargs.
  pose proof (passes_rowChanged _ Hrow) as Hchanged.
  exists (dmlOf event). unfold dmlOf at 2 3. rewrite Hkind.
  cbn [isUpdate DML_Values DML_OldValues].
  eexists _, _. split_and!; try done.
  intros j col Hj Hlater.
  destruct (Forall2_lookup_l _ _ _ _ _ Hargs Hj) as (old & Hold & Hfo).
  destruct (Forall2_lookup_l _ _ _ _ _ Hchanged Hj) as (new & Hnew & Hfn).
  assert (Hname : rowNames (Event_Row event) !! j = Some (Column_Name col)).
  { unfold rowNames. by rewrite list_lookup_fmap, Hj. }
  exists new, old. split_and!; try done.
  - apply (lookup_fill_last _ j).
    + apply lookup_zip_with_Some. by exists (Column_Name col), new.
    + rewrite fmap_drop, fst_zip by lia. done.
  - apply (lookup_fill_last _ j).
    + apply lookup_zip_with_Some. by exists (Column_Name col), old.
    + rewrite fmap_drop, fst_zip by lia. done.
  - intros Heq. rewrite Heq in Hfn. congruence.
Qed.

(** X3. The current payload of a column is what an update calls the old
    value: an update and an insert or a delete of the same row, each in a
    record that translates, have the same map as the [OldValues] of the
    one and the [Values] of the other. *)
Theorem update_old_values_are_insert_values
    binlog1 txn1 i1 event1 binlog2 txn2 i2 event2 :
  Binlog_Tp binlog1 = BinlogType_DML →
  Binlog_Tp binlog2 = BinlogType_DML →
  pbBinlogToTxn binlog1 = Ok txn1 →
  pbBinlogToTxn binlog2 = Ok txn2 →
  GetEvents (Binlog_DmlData binlog1) !! i1 = Some event1 →
  GetEvents (Binlog_DmlData binlog2) !! i2 = Some event2 →
  Event_Tp event1 = EventType_Update →
  Event_Tp event2 = EventType_Insert ∨ Event_Tp event2 = EventType_Delete →
  Event_Row event1 = Event_Row event2 →
  ∃ dml1 dml2 m,
    Txn_DMLs txn1 !! i1 = Some dml1 ∧
    Txn_DMLs txn2 !! i2 = Some dml2 ∧
    DML_OldValues dml1 = Some m ∧
    DML_Values dml2 = Some m.
Proof.
  intros Htp1 Htp2 Hok1 Hok2 Hi1 Hi2 Hk1 Hk2 Hrow.
  destruct (pbBinlogToTxn_DML_Ok _ _ Htp1 Hok1) as [_ Hall1].
  destruct (pbBinlogToTxn_DML_Ok _ _ Htp2 Hok2) as [_ Hall2].
  destruct (Forall2_lookup_l _ _ _ _ _ Hall1 Hi1) as (dml1 & Hdml1 & Htr1).
  destruct (Forall2_lookup_l _ _ _ _ _ Hall2 Hi2) as (dml2 & Hdml2 & Htr2).
  apply eventToDML_Ok in Htr1 as (-> & _ & _).
  apply eventToDML_Ok in Htr2 as (-> & _ & _).
  exists (dmlOf event1), (dmlOf event2). unfold dmlOf at 3 4.
  rewrite Hk1, Hrow. cbn [isUpdate DML_Values DML_OldValues].
  eexists. split_and!; try done.
  by destruct Hk2 as [-> | ->].
Qed.

(** X4. The events of a record are translated one by one, with nothing
    carried from one to the next: a record whose events are those of two
    records, one after the other, translates exactly when both do, to
    their DMLs one after the other; and an error of the first is the error
    of the whole. *)
Theorem translation_composes binlog binlog1 binlog2 :
  Binlog_Tp binlog = BinlogType_DML →
  Binlog_Tp binlog1 = BinlogType_DML →
  Binlog_Tp binlog2 = BinlogType_DML →
  GetEvents (Binlog_DmlData binlog) =
    GetEvents (Binlog_DmlData binlog1) ++ GetEvents (Binlog_DmlData binlog2) →
  (∀ txn,
     pbBinlogToTxn binlog = Ok txn ↔
     ∃ txn1 txn2,
       pbBinlogToTxn binlog1 = Ok txn1 ∧
       pbBinlogToTxn binlog2 = Ok txn2 ∧
       txn = {| Txn_DMLs := Txn_DMLs txn1 ++ Txn_DMLs txn2;
                Txn_DDL := None |}) ∧
  (∀ e, pbBinlogToTxn binlog1 = Err e → pbBinlogToTxn binlog = Err e).
Proof.
  intros Htp Htp1 Htp2 Hevs.
  rewrite (pbBinlogToTxn_DML _ Htp), (pbBinlogToTxn_DML _ Htp1),
    (pbBinlogToTxn_DML _ Htp2), Hevs.
  generalize (GetEvents (Binlog_DmlData binlog1)) as events1.
  generalize (GetEvents (Binlog_DmlData binlog2)) as events2.
  intros events2 events1. split.
  - intros txn. split.
    + destruct (eventsToDMLs_from (events1 ++ events2) []) as [dmls| |] eqn:Hev;
        cbn; try done.
      intros [= <-].
      apply eventsToDMLs_from_Ok in Hev as (ds & -> & Hds).
      apply Forall2_app_inv_l in Hds as (ds1 & ds2 & H1 & H2 & ->).
      rewrite <- (app_nil_r events1), <- (app_nil_r events2).
      rewrite (eventsToDMLs_from_passes _ _ _ _ H1).
      rewrite (eventsToDMLs_from_passes _ _ _ _ H2). cbn.
      by eexists _, _.
    + intros (txn1 & txn2 & Hok1 & Hok2 & ->).
      destruct (eventsToDMLs_from events1 []) as [ds1| |] eqn:H1;
        cbn in Hok1; simplify_eq.
      destruct (eventsToDMLs_from events2 []) as [ds2| |] eqn:H2;
        cbn in Hok2; simplify_eq.
      apply eventsToDMLs_from_Ok in H1 as (ds1' & -> & H1).
      apply eventsToDMLs_from_Ok in H2 as (ds2' & -> & H2).
      rewrite <- (app_nil_r (events1 ++ events2)).
      rewrite (eventsToDMLs_from_passes _ _ _ _ (Forall2_app H1 H2)).
      done.
  - intros e.
    destruct (eventsToDMLs_from events1 []) as [ds1| |] eqn:H1; cbn; try done.
    intros [= ->]. revert H1. generalize (@nil DML).
    induction events1 as [|event events1 IH]; intros dmls; cbn; [done|].
    destruct (eventToDML event); cbn; try done; [apply IH|by intros [= ->]].
Qed.

(** X5. A transaction is a DDL or a batch of DMLs, never both, by the type
    of the record; a record of any other type gives no transaction. *)
Theorem transaction_shape binlog txn :
  pbBinlogToTxn binlog = Ok txn →
  (Binlog_Tp binlog = BinlogType_DML ∧ Txn_DDL txn = None ∧
   length (Txn_DMLs txn) = length (GetEvents (Binlog_DmlData binlog))) ∨
  (Binlog_Tp binlog = BinlogType_DDL ∧ Txn_DMLs txn = [] ∧
   is_Some (Txn_DDL txn)).
Proof.
  intros Hok. destruct (Binlog_Tp binlog) eqn:Htp.
  - left. destruct (pbBinlogToTxn_DML_Ok _ _ Htp Hok) as [Hddl Hall].
    split_and!; try done. symmetry. by eapply Forall2_length.
  - right. unfold pbBinlogToTxn in Hok. rewrite Htp in Hok.
    destruct (retrace _) as [[db tbl]| |]; cbn in Hok; try done.
    destruct (Nat.eqb _ _); simplify_eq. by cbn.
  - unfold pbBinlogToTxn in Hok. by rewrite Htp in Hok.
Qed.

(** ** parserSchemaTableFromDDL and DDL records *)

Lemma prefix_refl s : String.prefix s s = true.
Proof.
  induction s as [|a s IH]; [done|]. cbn.
  by destruct (Ascii.ascii_dec a a).
Qed.

Lemma contains_refl s : contains s s = true.
Proof. destruct s as [|a s]; [done|]. cbn [contains]. by rewrite prefix_refl. Qed.

(** A message that ends with a text contains it. *)
Lemma contains_append p s : contains (p +:+ s) s = true.
Proof.
  induction p as [|a p IH]; [apply contains_refl|].
  change (String a p +:+ s) with (String a (p +:+ s)).
  cbn [contains]. rewrite IH. apply orb_true_r.
Qed.

(** The one error of the loop over the statements. *)
Lemma walkStmts_Err ddlQuery stmts haveUseStmt schema table e :
  walkStmts ddlQuery stmts haveUseStmt schema table = Err e →
  e = Errorf ("unknown ddl type, ddl: " +:+ ddlQuery).
Proof.
  revert haveUseStmt schema table.
  induction stmts as [|stmt stmts IH]; intros haveUseStmt schema table;
    [done|].
  destruct stmt as [| | | | | | | |[|t ts]| |]; cbn; try done;
    try apply IH.
  by intros [= <-].
Qed.

Lemma walkStmts_resolvable_app ddlQuery pre stmts haveUseStmt schema table :
  forallb resolvable pre = true →
  ∃ h s t,
    walkStmts ddlQuery pre haveUseStmt schema table = Ok (h, s, t) ∧
    walkStmts ddlQuery (pre ++ stmts) haveUseStmt schema table =
    walkStmts ddlQuery stmts h s t.
Proof.
  intros Hpre.
  destruct (walkStmts_resolvable ddlQuery pre haveUseStmt schema table Hpre)
    as [[[h s] t] Hwalk].
  exists h, s, t. split; [done|]. by rewrite walkStmts_app, Hwalk.
Qed.

(** X6. When the text of a DDL record parses, every error the record fails
    with has the text, whole, at the end of its message: "unknown ddl
    type", "invalid ddl" and "can't parse database name" all print it. *)
Theorem ddl_errors_print_sql binlog stmts err :
  Binlog_Tp binlog = BinlogType_DDL →
  Parse (String.string_of_list_byte (Binlog_DdlQuery binlog)) = inr stmts →
  pbBinlogToTxn binlog = Err err →
  contains (Error err)
    (String.string_of_list_byte (Binlog_DdlQuery binlog)) = true ∧
  (Error err = "unknown ddl type, ddl: " +:+
                 String.string_of_list_byte (Binlog_DdlQuery binlog) ∨
   Error err = "invalid ddl " +:+
                 String.string_of_list_byte (Binlog_DdlQuery binlog) ∨
   Error err = "can't parse database name from DDL " +:+
                 String.string_of_list_byte (Binlog_DdlQuery binlog)).
Proof.
  intros Htp Hparse. unfold pbBinlogToTxn. rewrite Htp.
  rewrite (parserSchemaTableFromDDL_parsed _ _ Hparse), resolveStmts_walk.
  set (sql := String.string_of_list_byte (Binlog_DdlQuery binlog)).
  intros Herr.
  assert (Hmsg :
    Error err = "unknown ddl type, ddl: " +:+ sql ∨
    Error err = "invalid ddl " +:+ sql ∨
    Error err = "can't parse database name from DDL " +:+ sql).
  { destruct (walkStmts sql stmts false "" "") as [[[h schema] table]|e|]
      eqn:Hwalk; cbn in Herr; try done.
    - destruct (countRule stmts); cbn in Herr.
      + destruct (Nat.eqb _ _); simplify_eq. by right; right.
      + simplify_eq. by right; left.
    - apply walkStmts_Err in Hwalk as ->. simplify_eq. by left. }
  split; [|done].
  destruct Hmsg as [-> |[-> | ->]]; apply contains_append.
Qed.

(** X7. A statement of a kind the resolver does not know fails the
    resolution with "unknown ddl type", whatever the number of statements
    is and whatever follows it: the kinds are checked before the count. *)
Theorem unknown_statement_rejected ddlQuery pre post :
  Parse ddlQuery = inr (pre ++ OtherStmt :: post) →
  forallb resolvable pre = true →
  parserSchemaTableFromDDL ddlQuery =
  Err (Errorf ("unknown ddl type, ddl: " +:+ ddlQuery)).
Proof.
  intros Hparse Hpre.
  rewrite (parserSchemaTableFromDDL_parsed _ _ Hparse), resolveStmts_walk.
  destruct (walkStmts_resolvable_app ddlQuery pre (OtherStmt :: post)
              false "" "" Hpre) as (h & s & t & _ & ->).
  done.
Qed.

(** X8. A CREATE DATABASE or DROP DATABASE, alone or after a USE, resolves
    to its database as the schema, whatever the USE set, and to no table. *)
Theorem database_statement_resolves ddlQuery pre stmt name :
  Parse ddlQuery = inr (pre ++ [stmt]) →
  databaseOf stmt = Some name →
  (pre = [] ∨ ∃ db, pre = [UseStmt db]) →
  parserSchemaTableFromDDL ddlQuery = Ok (name, "").
Proof.
  intros Hparse Hdb Hpre.
  rewrite (parserSchemaTableFromDDL_parsed _ _ Hparse).
  destruct stmt; simplify_eq/=; by destruct Hpre as [-> |[db ->]].
Qed.

(** X9. A DROP TABLE resolves by the first of its tables alone: the tables
    after the first have no part in the result. *)
Theorem drop_table_first_only ddlQuery pre t ts post :
  Parse ddlQuery = inr (pre ++ DropTableStmt (t :: ts) :: post) →
  (∀ ts',
     resolveStmts ddlQuery (pre ++ DropTableStmt (t :: ts') :: post) =
     parserSchemaTableFromDDL ddlQuery) ∧
  (pre = [] → post = [] →
   parserSchemaTableFromDDL ddlQuery =
   Ok (CIStr_O (TableName_Schema t), CIStr_O (TableName_Name t))).
Proof.
  intros Hparse. rewrite (parserSchemaTableFromDDL_parsed _ _ Hparse). split.
  - intros ts'. rewrite !resolveStmts_walk, !walkStmts_app.
    unfold countRule. rewrite !existsb_app, !length_app. cbn.
    by destruct (walkStmts ddlQuery pre _ _ _) as [[[h s'] t']| |].
  - intros -> ->. cbn. unfold schemaOf.
    by destruct (CIStr_O (TableName_Schema t)).
Qed.

(** X10. The resolver does not ask that the USE come first: a statement
    followed by a USE resolves, to the schema of the USE, whatever
    qualifier the statement has, and to the table of the statement. *)
Theorem trailing_use_sets_schema ddlQuery stmt db :
  Parse ddlQuery = inr [stmt; UseStmt db] →
  resolvable stmt = true →
  ∃ table,
    parserSchemaTableFromDDL ddlQuery = Ok (db, table) ∧
    (∀ t, tableOf stmt = Some t → table = CIStr_O (TableName_Name t)) ∧
    (tableOf stmt = None → table = "").
Proof.
  intros Hparse Hres.
  rewrite (parserSchemaTableFromDDL_parsed _ _ Hparse).
  destruct stmt as [| | | | | | | |[|t ts]| |]; simplify_eq/=;
    eexists; (split; [reflexivity|]); split; try done; by intros ? [= <-].
Qed.

(** X11. A DDL record of one statement on a table translates exactly when
    the table has a qualifier, to that schema, the name of the table and
    the text of the record; without a qualifier it fails with "can't parse
    database name". *)
Theorem single_table_statement binlog stmt t :
  Binlog_Tp binlog = BinlogType_DDL →
  Parse (String.string_of_list_byte (Binlog_DdlQuery binlog)) = inr [stmt] →
  tableOf stmt = Some t →
  pbBinlogToTxn binlog =
  if String.eqb (CIStr_O (TableName_Schema t)) ""
  then Err (Errorf ("can't parse database name from DDL " +:+
                    String.string_of_list_byte (Binlog_DdlQuery binlog)))
  else Ok {| Txn_DMLs := [];
             Txn_DDL :=
               Some {| DDL_Database := CIStr_O (TableName_Schema t);
                       DDL_Table := CIStr_O (TableName_Name t);
                       DDL_SQL := String.string_of_list_byte
                                    (Binlog_DdlQuery binlog) |} |}.
Proof.
  intros Htp Hparse Ht. unfold pbBinlogToTxn. rewrite Htp.
  rewrite (parserSchemaTableFromDDL_parsed _ _ Hparse), resolveStmts_walk.
  rewrite (walkStmts_table _ _ _ _ _ _ _ Ht).
  assert (Huse : existsb isUse [stmt] = false).
  { by destruct stmt as [| | | | | | | |[|t' ts]| |]. }
  unfold countRule. rewrite Huse. cbn. unfold schemaOf.
  by destruct (CIStr_O (TableName_Schema t)).
Qed.

(** ** What the path of an insert or a delete does not depend on *)

(** X12. [genColsAndArgs] reads the name, the type descriptor and the
    current payload of a column and nothing else: on two rows whose columns
    agree on these, whatever their changed payloads and display types are,
    it ends the same way, with the same names and values, the same error
    or the same panic. *)
Theorem genColsAndArgs_reads_current row1 row2 :
  Forall2 sameCurrent row1 row2 →
  genColsAndArgs row1 = genColsAndArgs row2.
Proof.
  unfold genColsAndArgs. generalize (@nil string) (@nil Any).
  intros cols args Hrows. revert cols args.
  induction Hrows as [|c1 c2 row1 row2 Hc _ IH]; intros cols args; [done|].
  destruct Hc as (col1 & col2 & Hu1 & Hu2 & Hname & Htp & Hval).
  cbn. rewrite Hu1, Hu2. cbn. rewrite Hname, Htp, Hval.
  destruct (DecodeOne (Column_Value col2)) as [e|[rest d]]; cbn; [done|].
  destruct (Column_Tp col2) as [|tp tps]; cbn; [done|]. apply IH.
Qed.

Lemma fill_list_to_map (kvs : list (string * Any)) :
  fill kvs ∅ = list_to_map (reverse kvs).
Proof.
  induction kvs as [|[k v] kvs IH] using rev_ind; [done|].
  by rewrite fill_snoc, reverse_snoc, IH.
Qed.

Lemma passes_columnPair row :
  forallb (columnPasses false) row = true →
  zip (rowNames row) (rowArgs row) = omap columnPair row.
Proof.
  induction row as [|c row IH]; [done|].
  cbn [forallb]. intros [Hc Hrow]%andb_true_iff.
  destruct (columnPasses_inv _ _ Hc)
    as (col & rest & d & tp & tps & Hu & Hd & Htp & _).
  pose proof (formatted_Some _ _ _ _ _ _ Hd Htp) as Hf.
  rewrite (rowNames_cons _ _ _ Hu), (rowArgs_cons _ _ _ _ Hu Hf).
  cbn [omap list_omap zip zip_with]. unfold columnPair at 1.
  rewrite Hu, Hf. f_equal. by apply IH.
Qed.

(** X13. The order of the columns of an insert or a delete does not show in
    its [Values] when their names are pairwise distinct: two such events of
    translated records whose rows are the same entries in another order
    have the same [Values]. *)
Theorem column_order_irrelevant
    binlog1 txn1 i1 event1 binlog2 txn2 i2 event2 :
  Binlog_Tp binlog1 = BinlogType_DML →
  Binlog_Tp binlog2 = BinlogType_DML →
  pbBinlogToTxn binlog1 = Ok txn1 →
  pbBinlogToTxn binlog2 = Ok txn2 →
  GetEvents (Binlog_DmlData binlog1) !! i1 = Some event1 →
  GetEvents (Binlog_DmlData binlog2) !! i2 = Some event2 →
  Event_Tp event1 = EventType_Insert ∨ Event_Tp event1 = EventType_Delete →
  Event_Tp event2 = EventType_Insert ∨ Event_Tp event2 = EventType_Delete →
  Event_Row event1 ≡ₚ Event_Row event2 →
  NoDup (rowNames (Event_Row event1)) →
  ∃ dml1 dml2,
    Txn_DMLs txn1 !! i1 = Some dml1 ∧
    Txn_DMLs txn2 !! i2 = Some dml2 ∧
    DML_Values dml1 = DML_Values dml2.
Proof.
  intros Htp1 Htp2 Hok1 Hok2 Hi1 Hi2 Hk1 Hk2 Hperm Hnodup.
  destruct (pbBinlogToTxn_DML_Ok _ _ Htp1 Hok1) as [_ Hall1].
  destruct (pbBinlogToTxn_DML_Ok _ _ Htp2 Hok2) as [_ Hall2].
  destruct (Forall2_lookup_l _ _ _ _ _ Hall1 Hi1) as (dml1 & Hdml1 & Htr1).
  destruct (Forall2_lookup_l _ _ _ _ _ Hall2 Hi2) as (dml2 & Hdml2 & Htr2).
  apply eventToDML_Ok in Htr1 as (-> & _ & Hrow1).
  apply eventToDML_Ok in Htr2 as (-> & _ & Hrow2).
  assert (Hup1 : isUpdate (Event_Tp event1) = false)
    by by destruct Hk1 as [-> | ->].
  assert (Hup2 : isUpdate (Event_Tp event2) = false)
    by by destruct Hk2 as [-> | ->].
  rewrite Hup1 in Hrow1. rewrite Hup2 in Hrow2.
  exists (dmlOf event1), (dmlOf event2). split_and!; try done.
  unfold dmlOf. rewrite Hup1, Hup2. cbn [DML_Values]. f_equal.
  destruct (passes_lengths _ _ Hrow1) as (_ & Hn1 & Ha1 & _).
  assert (Hfst : (zip (rowNames (Event_Row event1))
                      (rowArgs (Event_Row event1))).*1 =
                 rowNames (Event_Row event1)) by (apply fst_zip; lia).
  rewrite !fill_list_to_map. apply list_to_map_proper.
  - rewrite fmap_reverse, Hfst. by rewrite reverse_Permutation.
  - rewrite !reverse_Permutation.
    rewrite (passes_columnPair _ Hrow1), (passes_columnPair _ Hrow2).
    by rewrite Hperm.
Qed.

(** ** The first event that does not translate *)


End MoreProperties.

(** * Runs on the sample instance *)

#[local] Existing Instance Sample.externals.

(** The order of the operations, on the record of [e1; e2; e3]. *)
Lemma operations_follow_events_run :
  length (Txn_DMLs Sample.txn123) = 3 ∧
  ∀ i event,
    [Sample.e1; Sample.e2; Sample.e3] !! i = Some event →
    ∃ dml,
      Txn_DMLs Sample.txn123 !! i = Some dml ∧
      eventToDML (ext:=Sample.externals) event = Ok dml ∧
      DML_Database dml = Event_SchemaName event ∧
      DML_Table dml = Event_TableName event ∧
      DML_Tp dml = dmlTypeOf (Event_Tp event).
Proof.
  apply (operations_follow_events (ext:=Sample.externals)
           (Sample.dml [Sample.e1; Sample.e2; Sample.e3]) Sample.txn123).
  - reflexivity.
  - vm_compute. reflexivity.
Defined.

(** The two maps of the update of that record. *)
Lemma maps_by_kind_run :
  ∃ event values,
    event ∈ [Sample.e1; Sample.e2; Sample.e3] ∧
    DML_Values (dmlOf (ext:=Sample.externals) Sample.e2) = Some values ∧
    dom values = list_to_set (rowNames (Event_Row event)) ∧
    ∃ oldValues,
      DML_OldValues (dmlOf (ext:=Sample.externals) Sample.e2) = Some oldValues ∧
      dom values = dom oldValues.
Proof.
  apply (maps_by_kind (ext:=Sample.externals)
           (Sample.dml [Sample.e1; Sample.e2; Sample.e3]) Sample.txn123
           (dmlOf Sample.e2)).
  - vm_compute. reflexivity.
  - apply (list_elem_of_lookup_2 _ 1). reflexivity.
Defined.

(** A record whose second event has a payload the codec rejects, and whose
    columns are typed: no transaction, and an error. *)
Lemma no_partial_batch_run :
  (∀ txn,
     pbBinlogToTxn (ext:=Sample.externals)
       (Sample.dml [Sample.e1;
                    Sample.event EventType_Insert [Sample.badPrice];
                    Sample.e3]) ≠ Ok txn) ∧
  (∃ e,
     pbBinlogToTxn (ext:=Sample.externals)
       (Sample.dml [Sample.e1;
                    Sample.event EventType_Insert [Sample.badPrice];
                    Sample.e3]) = Err e).
Proof.
  destruct (no_partial_batch (ext:=Sample.externals)
              (Sample.dml [Sample.e1;
                           Sample.event EventType_Insert [Sample.badPrice];
                           Sample.e3]) eq_refl eq_refl) as [Hno Herr].
  split; [exact Hno|]. apply Herr. reflexivity.
Defined.

(** C1, as it is stated, fails: a record whose first event has a column
    with an empty type descriptor and whose second event is of no known
    type has an event that fails to translate, and its translation returns
    no error: it panics at the type tag of the first event. *)
Lemma failing_event_after_untyped_column :
  existsb (eventFails (ext:=Sample.externals))
    [Sample.event EventType_Insert [Sample.untyped];
     Sample.event (EventType_other 7) []] = true ∧
  eventsTyped (ext:=Sample.externals)
    [Sample.event EventType_Insert [Sample.untyped];
     Sample.event (EventType_other 7) []] = false ∧
  pbBinlogToTxn (ext:=Sample.externals)
    (Sample.dml [Sample.event EventType_Insert [Sample.untyped];
                 Sample.event (EventType_other 7) []]) = Panic.
Proof. split_and!; reflexivity. Qed.

(** A record whose columns are typed does not panic; one whose update
    reaches a column with an empty type descriptor does. *)
Lemma type_tag_precondition_run :
  pbBinlogToTxn (ext:=Sample.externals)
    (Sample.dml [Sample.e1; Sample.e2; Sample.e3]) ≠ Panic ∧
  pbBinlogToTxn (ext:=Sample.externals)
    (Sample.dml [Sample.e1;
                 Sample.event EventType_Update
                   [[x02; x05; x09; x0a]; Sample.untyped]]) = Panic.
Proof.
  split.
  - apply (type_tag_precondition (ext:=Sample.externals)
             (Sample.dml [Sample.e1; Sample.e2; Sample.e3]) eq_refl).
    reflexivity.
  - apply (proj2 (type_tag_precondition (ext:=Sample.externals)
                    (Sample.dml [Sample.e1;
                                 Sample.event EventType_Update
                                   [[x02; x05; x09; x0a]; Sample.untyped]])
                    eq_refl)
             [Sample.e1]
             (Sample.event EventType_Update
                [[x02; x05; x09; x0a]; Sample.untyped])
             [] [dmlOf Sample.e1]
             [[x02; x05; x09; x0a]] Sample.untyped [] Sample.untypedColumn).
    + reflexivity.
    + constructor; [vm_compute; reflexivity|constructor].
    + reflexivity.
    + reflexivity.
    + reflexivity.
    + reflexivity.
    + reflexivity.
    + reflexivity.
Defined.

(** The error of an insert whose second column the codec rejects: the
    error of the codec, which has a stack, as it is. *)
Lemma codec_error_returned_run :
  ∃ err,
    pbBinlogToTxn (ext:=Sample.externals)
      (Sample.dml [Sample.e1;
                   Sample.event EventType_Insert
                     [[x01; x03; x05; x00]; Sample.badPrice]]) = Err err ∧
    Error err = Error (Errorf "invalid encoded key") ∧
    err = Trace (Errorf "invalid encoded key") ∧
    (HasStack (Errorf "invalid encoded key") = true →
     err = Errorf "invalid encoded key").
Proof.
  apply (codec_error_returned (ext:=Sample.externals)
           (Sample.dml [Sample.e1;
                        Sample.event EventType_Insert
                          [[x01; x03; x05; x00]; Sample.badPrice]])
           [Sample.e1]
           (Sample.event EventType_Insert
              [[x01; x03; x05; x00]; Sample.badPrice])
           [] [dmlOf Sample.e1]
           [[x01; x03; x05; x00]] Sample.badPrice [] Sample.priceColumn
           (Errorf "invalid encoded key")).
  - reflexivity.
  - reflexivity.
  - constructor; [vm_compute; reflexivity|constructor].
  - reflexivity.
  - reflexivity.
  - reflexivity.
  - reflexivity.
  - reflexivity.
Defined.

(** C8, as it is stated, fails: the codec rejects the payload of the column
    "price" of type "int", and the message of the error the record fails
    with has neither the name nor the type in it. *)
Lemma codec_error_without_column :
  Unmarshal (Externals:=Sample.externals) Sample.badPrice =
    inr Sample.priceColumn ∧
  DecodeOne (Externals:=Sample.externals) (Column_Value Sample.priceColumn) =
    inl (Errorf "invalid encoded key") ∧
  pbBinlogToTxn (ext:=Sample.externals)
    (Sample.dml [Sample.event EventType_Insert [Sample.badPrice]]) =
    Err (Errorf "invalid encoded key") ∧
  contains (Error (Errorf "invalid encoded key"))
    (Column_Name Sample.priceColumn) = false ∧
  contains (Error (Errorf "invalid encoded key"))
    (Column_MysqlType Sample.priceColumn) = false.
Proof. repeat split; reflexivity. Qed.

(** The values of the insert of the record of [e1; e2; e3]. *)
Lemma insert_delete_values_run :
  ∃ txn dml values,
    pbBinlogToTxn (ext:=Sample.externals)
      (Sample.dml [Sample.e1; Sample.e2; Sample.e3]) = Ok txn ∧
    Txn_DMLs txn !! 0 = Some dml ∧
    DML_Values dml = Some values ∧
    length (rowColumns (ext:=Sample.externals) (Event_Row Sample.e1)) =
      length (Event_Row Sample.e1) ∧
    dom values = list_to_set (rowNames (Event_Row Sample.e1)) ∧
    (∀ j col,
       rowColumns (Event_Row Sample.e1) !! j = Some col →
       Column_Name col ∉ drop (S j) (rowNames (Event_Row Sample.e1)) →
       ∃ v, formatted (Column_Value col) (Column_Tp col) = Some v ∧
            values !! Column_Name col = Some v) ∧
    (NoDup (rowNames (Event_Row Sample.e1)) →
     size values = length (Event_Row Sample.e1) ∧
     ∀ col, col ∈ rowColumns (Event_Row Sample.e1) →
       ∃ v, formatted (Column_Value col) (Column_Tp col) = Some v ∧
            values !! Column_Name col = Some v).
Proof.
  apply (insert_delete_values (ext:=Sample.externals)
           (Sample.dml [Sample.e1; Sample.e2; Sample.e3]) 0 Sample.e1).
  - reflexivity.
  - reflexivity.
  - reflexivity.
  - reflexivity.
  - left. reflexivity.
Defined.

(** C2, as it is stated, fails: an insert with two columns named "id", whose
    payloads decode, translates to a [Values] of one key, with the value of
    the second column under it; and an insert of a column whose payload
    decodes and whose type descriptor is empty gives no [Values]: it
    panics. *)
Lemma duplicate_names_one_key :
  pbBinlogToTxn (ext:=Sample.externals) (Sample.dml [Sample.twice]) =
    Ok {| Txn_DMLs := [dmlOf Sample.twice]; Txn_DDL := None |} ∧
  forallb (columnDecodes (ext:=Sample.externals) false)
    (Event_Row Sample.twice) = true ∧
  length (Event_Row Sample.twice) = 2 ∧
  rowNames (ext:=Sample.externals) (Event_Row Sample.twice) = ["id"; "id"] ∧
  (∃ values,
     DML_Values (dmlOf (ext:=Sample.externals) Sample.twice) = Some values ∧
     size values = 1 ∧
     values !! "id" = Some [x03; x06]) ∧
  columnDecodes (ext:=Sample.externals) false Sample.untyped = true ∧
  pbBinlogToTxn (ext:=Sample.externals)
    (Sample.dml [Sample.event EventType_Insert [Sample.untyped]]) = Panic.
Proof.
  split_and!; try (vm_compute; reflexivity).
  eexists. split_and!; [reflexivity|vm_compute; reflexivity..].
Qed.

(** A USE alone, and two statements without a USE, are invalid. *)
Lemma statement_count_rule_run :
  parserSchemaTableFromDDL (ext:=Sample.externals) "USE db1" =
    Err (Errorf "invalid ddl USE db1") ∧
  parserSchemaTableFromDDL (ext:=Sample.externals)
    "CREATE TABLE t1; CREATE TABLE t2" =
    Err (Errorf "invalid ddl CREATE TABLE t1; CREATE TABLE t2").
Proof.
  split.
  - exact (proj2 (statement_count_rule (ext:=Sample.externals)
                    "USE db1" [UseStmt "db1"] eq_refl) eq_refl).
  - exact (proj2 (statement_count_rule (ext:=Sample.externals)
                    "CREATE TABLE t1; CREATE TABLE t2"
                    [CreateTableStmt (Sample.tbl "" "t1");
                     CreateTableStmt (Sample.tbl "" "t2")] eq_refl) eq_refl).
Defined.

(** A CREATE TABLE after a USE, with a schema of its own and without. *)
Lemma explicit_qualifier_wins_run :
  parserSchemaTableFromDDL (ext:=Sample.externals)
    "USE db1; CREATE TABLE db2.t" = Ok ("db2", "t") ∧
  parserSchemaTableFromDDL (ext:=Sample.externals)
    "USE db1; CREATE TABLE t" = Ok ("db1", "t").
Proof.
  split.
  - exact (proj2 (explicit_qualifier_wins (ext:=Sample.externals)
                    "USE db1; CREATE TABLE db2.t" [UseStmt "db1"]
                    (CreateTableStmt (Sample.tbl "db2" "t"))
                    (Sample.tbl "db2" "t") eq_refl eq_refl)
             "db1" eq_refl).
  - exact (proj2 (explicit_qualifier_wins (ext:=Sample.externals)
                    "USE db1; CREATE TABLE t" [UseStmt "db1"]
                    (CreateTableStmt (Sample.tbl "" "t"))
                    (Sample.tbl "" "t") eq_refl eq_refl)
             "db1" eq_refl).
Defined.

(** The RENAME TABLE of the sample parser resolves to its new table. *)
Lemma rename_resolves_to_new_run :
  parserSchemaTableFromDDL (ext:=Sample.externals)
    "RENAME TABLE old_db.old_t TO new_db.new_t" = Ok ("new_db", "new_t").
Proof.
  exact (proj2 (proj2 (rename_resolves_to_new (ext:=Sample.externals)
                         "RENAME TABLE old_db.old_t TO new_db.new_t" []
                         (Sample.tbl "old_db" "old_t")
                         (Sample.tbl "new_db" "new_t") [] eq_refl))
           eq_refl eq_refl).
Defined.

(** A DDL that resolves to no schema fails. *)
Lemma ddl_schema_nonempty_run :
  pbBinlogToTxn (ext:=Sample.externals) (Sample.ddl "CREATE TABLE t") =
  Err (Errorf "can't parse database name from DDL CREATE TABLE t").
Proof.
  exact (proj2 (proj2 (ddl_schema_nonempty (ext:=Sample.externals)
                         (Sample.ddl "CREATE TABLE t")) eq_refl)
           "t" eq_refl).
Defined.

(** * More runs on the sample instances *)

(** The names and the values of the row of [e1], in its order. *)
Lemma genColsAndArgs_in_order_run :
  ∃ columns,
    Forall2 (fun c col => Unmarshal (Externals:=Sample.externals) c = inr col)
      (Event_Row Sample.e1) columns ∧
    ["id"; "price"] = Column_Name <$> columns ∧
    Forall2
      (fun col a =>
         formatted (ext:=Sample.externals)
           (Column_Value col) (Column_Tp col) = Some a)
      columns [[x03; x05]; [x05; x09]].
Proof.
  apply (proj1 (genColsAndArgs_in_order (ext:=Sample.externals)
                  (Event_Row Sample.e1) ["id"; "price"]
                  [[x03; x05]; [x05; x09]])).
  reflexivity.
Defined.

(** The two maps of the update [e2] of the record of [e1; e2; e3]. *)
Lemma update_values_run :
  ∃ dml values oldValues,
    Txn_DMLs Sample.txn123 !! 1 = Some dml ∧
    DML_Values dml = Some values ∧
    DML_OldValues dml = Some oldValues ∧
    ∀ j col,
      rowColumns (ext:=Sample.externals) (Event_Row Sample.e2) !! j =
        Some col →
      Column_Name col ∉ drop (S j) (rowNames (Event_Row Sample.e2)) →
      ∃ new old,
        formatted (Column_ChangedValue col) (Column_Tp col) = Some new ∧
        formatted (Column_Value col) (Column_Tp col) = Some old ∧
        values !! Column_Name col = Some new ∧
        oldValues !! Column_Name col = Some old ∧
        (Column_ChangedValue col = Column_Value col → new = old).
Proof.
  apply (update_values (ext:=Sample.externals)
           (Sample.dml [Sample.e1; Sample.e2; Sample.e3]) Sample.txn123
           1 Sample.e2).
  - reflexivity.
  - vm_compute. reflexivity.
  - reflexivity.
  - reflexivity.
Defined.

(** The old values of the update [e2] are the values of an insert of its
    row. *)
Lemma update_old_values_are_insert_values_run :
  ∃ dml1 dml2 m,
    Txn_DMLs Sample.txn123 !! 1 = Some dml1 ∧
    Txn_DMLs
      {| Txn_DMLs :=
           [dmlOf (ext:=Sample.externals)
              (Sample.event EventType_Insert (Event_Row Sample.e2))];
         Txn_DDL := None |} !! 0 = Some dml2 ∧
    DML_OldValues dml1 = Some m ∧
    DML_Values dml2 = Some m.
Proof.
  apply (update_old_values_are_insert_values (ext:=Sample.externals)
           (Sample.dml [Sample.e1; Sample.e2; Sample.e3]) Sample.txn123
           1 Sample.e2
           (Sample.dml [Sample.event EventType_Insert (Event_Row Sample.e2)])
           _ 0 (Sample.event EventType_Insert (Event_Row Sample.e2))).
  - reflexivity.
  - reflexivity.
  - vm_compute. reflexivity.
  - vm_compute. reflexivity.
  - reflexivity.
  - reflexivity.
  - reflexivity.
  - left. reflexivity.
  - reflexivity.
Defined.

(** The record of [e1; e2; e3] as the record of [e1] followed by the
    record of [e2; e3]. *)
Lemma translation_composes_run :
  pbBinlogToTxn (ext:=Sample.externals)
    (Sample.dml [Sample.e1; Sample.e2; Sample.e3]) =
  Ok {| Txn_DMLs :=
          Txn_DMLs {| Txn_DMLs := [dmlOf Sample.e1]; Txn_DDL := None |} ++
          Txn_DMLs {| Txn_DMLs := [dmlOf Sample.e2; dmlOf Sample.e3];
                      Txn_DDL := None |};
        Txn_DDL := None |}.
Proof.
  apply (proj1 (translation_composes (ext:=Sample.externals)
                  (Sample.dml [Sample.e1; Sample.e2; Sample.e3])
                  (Sample.dml [Sample.e1])
                  (Sample.dml [Sample.e2; Sample.e3])
                  eq_refl eq_refl eq_refl eq_refl)).
  exists {| Txn_DMLs := [dmlOf Sample.e1]; Txn_DDL := None |},
         {| Txn_DMLs := [dmlOf Sample.e2; dmlOf Sample.e3]; Txn_DDL := None |}.
  split_and!; [vm_compute; reflexivity..|reflexivity].
Defined.

(** The transaction of the record of [e1; e2; e3] is a batch. *)
Lemma transaction_shape_run :
  (Binlog_Tp (Sample.dml [Sample.e1; Sample.e2; Sample.e3]) = BinlogType_DML ∧
   Txn_DDL Sample.txn123 = None ∧
   length (Txn_DMLs Sample.txn123) =
   length (GetEvents
             (Binlog_DmlData (Sample.dml [Sample.e1; Sample.e2; Sample.e3])))) ∨
  (Binlog_Tp (Sample.dml [Sample.e1; Sample.e2; Sample.e3]) = BinlogType_DDL ∧
   Txn_DMLs Sample.txn123 = [] ∧
   is_Some (Txn_DDL Sample.txn123)).
Proof.
  apply (transaction_shape (ext:=Sample.externals)
           (Sample.dml [Sample.e1; Sample.e2; Sample.e3]) Sample.txn123).
  vm_compute. reflexivity.
Defined.

(** The error of a USE alone prints the text. *)
Lemma ddl_errors_print_sql_run :
  contains (Error (Trace (Errorf "invalid ddl USE db1")))
    (String.string_of_list_byte (Binlog_DdlQuery (Sample.ddl "USE db1"))) =
    true ∧
  (Error (Trace (Errorf "invalid ddl USE db1")) =
     "unknown ddl type, ddl: " +:+
       String.string_of_list_byte (Binlog_DdlQuery (Sample.ddl "USE db1")) ∨
   Error (Trace (Errorf "invalid ddl USE db1")) =
     "invalid ddl " +:+
       String.string_of_list_byte (Binlog_DdlQuery (Sample.ddl "USE db1")) ∨
   Error (Trace (Errorf "invalid ddl USE db1")) =
     "can't parse database name from DDL " +:+
       String.string_of_list_byte (Binlog_DdlQuery (Sample.ddl "USE db1"))).
Proof.
  apply (ddl_errors_print_sql (ext:=Sample.externals)
           (Sample.ddl "USE db1") [UseStmt "db1"]
           (Trace (Errorf "invalid ddl USE db1"))); reflexivity.
Defined.

(** Two statements of an unknown kind: the kind is what is reported, not
    the count. *)
Lemma unknown_statement_rejected_run :
  parserSchemaTableFromDDL (ext:=Sample2.externals) "SELECT 1; SELECT 2" =
  Err (Errorf "unknown ddl type, ddl: SELECT 1; SELECT 2").
Proof.
  apply (unknown_statement_rejected (ext:=Sample2.externals)
           "SELECT 1; SELECT 2" [] [OtherStmt]); reflexivity.
Defined.

(** A DROP DATABASE after a USE resolves to its own database. *)
Lemma database_statement_resolves_run :
  parserSchemaTableFromDDL (ext:=Sample2.externals)
    "USE db1; DROP DATABASE db2" = Ok ("db2", "").
Proof.
  apply (database_statement_resolves (ext:=Sample2.externals)
           "USE db1; DROP DATABASE db2" [UseStmt "db1"]
           (DropDatabaseStmt "db2") "db2").
  - reflexivity.
  - reflexivity.
  - right. exists "db1". reflexivity.
Defined.

(** A DROP TABLE of two tables resolves to the first. *)
Lemma drop_table_first_only_run :
  parserSchemaTableFromDDL (ext:=Sample2.externals)
    "DROP TABLE db1.a, db2.b" = Ok ("db1", "a").
Proof.
  exact (proj2 (drop_table_first_only (ext:=Sample2.externals)
                  "DROP TABLE db1.a, db2.b" [] (Sample.tbl "db1" "a")
                  [Sample.tbl "db2" "b"] [] eq_refl)
           eq_refl eq_refl).
Defined.

(** A CREATE TABLE with a schema of its own, followed by a USE. *)
Lemma trailing_use_sets_schema_run :
  ∃ table,
    parserSchemaTableFromDDL (ext:=Sample2.externals)
      "CREATE TABLE db2.t; USE db1" = Ok ("db1", table) ∧
    (∀ t, tableOf (CreateTableStmt (Sample.tbl "db2" "t")) = Some t →
          table = CIStr_O (TableName_Name t)) ∧
    (tableOf (CreateTableStmt (Sample.tbl "db2" "t")) = None → table = "").
Proof.
  apply (trailing_use_sets_schema (ext:=Sample2.externals)
           "CREATE TABLE db2.t; USE db1"
           (CreateTableStmt (Sample.tbl "db2" "t")) "db1"); reflexivity.
Defined.

(** The record of a CREATE TABLE with a schema. *)
Lemma single_table_statement_run :
  pbBinlogToTxn (ext:=Sample.externals) (Sample.ddl "CREATE TABLE db2.t") =
  Ok {| Txn_DMLs := [];
        Txn_DDL := Some {| DDL_Database := "db2"; DDL_Table := "t";
                           DDL_SQL := "CREATE TABLE db2.t" |} |}.
Proof.
  exact (single_table_statement (ext:=Sample.externals)
           (Sample.ddl "CREATE TABLE db2.t")
           (CreateTableStmt (Sample.tbl "db2" "t")) (Sample.tbl "db2" "t")
           eq_refl eq_refl eq_refl).
Defined.

(** Two rows that differ in a changed payload, one of which the codec
    rejects. *)
Lemma genColsAndArgs_reads_current_run :
  genColsAndArgs (ext:=Sample.externals) [[x01; x03; x05; x00]] =
  genColsAndArgs (ext:=Sample.externals) [[x01; x03; x05; xff]].
Proof.
  apply (genColsAndArgs_reads_current (ext:=Sample.externals)).
  constructor; [|constructor].
  eexists _, _. split_and!; reflexivity.
Defined.

(** The insert [e1] and the insert of its columns in the other order. *)
Lemma column_order_irrelevant_run :
  ∃ dml1 dml2,
    Txn_DMLs {| Txn_DMLs := [dmlOf (ext:=Sample.externals) Sample.e1];
                Txn_DDL := None |} !! 0 = Some dml1 ∧
    Txn_DMLs
      {| Txn_DMLs :=
           [dmlOf (ext:=Sample.externals)
              (Sample.event EventType_Insert
                 [[x02; x05; x09; x00]; [x01; x03; x05; x00]])];
         Txn_DDL := None |} !! 0 = Some dml2 ∧
    DML_Values dml1 = DML_Values dml2.
Proof.
  apply (column_order_irrelevant (ext:=Sample.externals)
           (Sample.dml [Sample.e1]) _ 0 Sample.e1
           (Sample.dml [Sample.event EventType_Insert
                          [[x02; x05; x09; x00]; [x01; x03; x05; x00]]])
           _ 0
           (Sample.event EventType_Insert
              [[x02; x05; x09; x00]; [x01; x03; x05; x00]])).
  - reflexivity.
  - reflexivity.
  - vm_compute. reflexivity.
  - vm_compute. reflexivity.
  - reflexivity.
  - reflexivity.
  - left. reflexivity.
  - left. reflexivity.
  - apply perm_swap.
  - apply (bool_decide_unpack _). vm_compute. exact I.
Defined.

(** C4, as it is stated, fails: a CREATE TABLE with the qualifier db2,
    followed by a USE db1, resolves, and to the schema of the USE. *)
Lemma qualified_statement_before_use :
  Parse (Externals:=Sample2.externals) "CREATE TABLE db2.t; USE db1" =
    inr [CreateTableStmt (Sample.tbl "db2" "t"); UseStmt "db1"] ∧
  CIStr_O (TableName_Schema (Sample.tbl "db2" "t")) = "db2" ∧
  parserSchemaTableFromDDL (ext:=Sample2.externals)
    "CREATE TABLE db2.t; USE db1" = Ok ("db1", "t").
Proof. split_and!; reflexivity. Qed.

(** C9, as it is stated, fails: a RENAME TABLE to c.d, followed by a USE
    db1, resolves, and to the schema of the USE, not the qualifier of the
    new table. *)
Lemma rename_before_use :
  Parse (Externals:=Sample3.externals) "RENAME TABLE a.b TO c.d; USE db1" =
    inr [RenameTableStmt (Sample.tbl "a" "b") (Sample.tbl "c" "d");
         UseStmt "db1"] ∧
  parserSchemaTableFromDDL (ext:=Sample3.externals)
    "RENAME TABLE a.b TO c.d; USE db1" = Ok ("db1", "d").
Proof. split_and!; reflexivity. Qed.

